(** * ERPNext code analyzer: structure extractor and relationship detector

    A shallow embedding of [src/extractor.py] (class [CodeExtractor]) and
    [src/relationships.py] (class [RelationshipDetector]), together with the
    part of Python's [ast] module both analysers rely on: the shape of the
    syntax tree, [ast.iter_child_nodes] and the breadth-first [ast.walk].

    Mutable instance attributes are threaded explicitly: every method takes
    the instance and returns the updated instance.  Exceptions are values of
    [exn]; text written with [print] is returned as a list of [output]. *)

From stdpp Require Import base option list gmap strings sorting pretty.
From Stdlib Require Import ZArith Lia Ascii.

Set Warnings "-register-all".

Local Open Scope string_scope.
Local Open Scope list_scope.
Local Open Scope Z_scope.

(** ** The syntax tree *)

Module Ast.

(** An [alias] of an import statement: [import name as asname]. *)
Record alias := Alias { alias_name : string; asname : option string }.

(** The node classes the two analysers test for, with the attributes they
    read and, for the walk, all child nodes in the field order of the
    class.  Every other statement or expression class is [Other] with its
    children in field order.  [arg_names] of a function definition is
    [[a.arg for a in node.args.args]]; the [arguments] subtree itself
    (annotations and default values) is the child [args].  Childless marker
    nodes that carry no data (expression contexts, operators) are left out
    of the child lists: no analyser matches them. *)
Inductive node : Type :=
| Module (body : list node)
| FunctionDef (name : string) (lineno : Z) (arg_names : list string)
    (args : node) (body decorator_list rest : list node)
| AsyncFunctionDef (name : string) (lineno : Z) (arg_names : list string)
    (args : node) (body decorator_list rest : list node)
| ClassDef (name : string) (lineno : Z)
    (bases keywords body decorator_list type_params : list node)
| Import (lineno : Z) (names : list alias)
| ImportFrom (lineno : Z) (module : option string) (names : list alias)
| AliasNode (a : alias)
| Call (lineno : Z) (func : node) (args keywords : list node)
| Name (lineno : Z) (id : string)
| Attribute (lineno : Z) (value : node) (attr : string)
| Other (children : list node).

(** [ast.iter_child_nodes]: the direct children, in field order. *)
Definition iter_child_nodes (n : node) : list node :=
  match n with
  | Module body => body
  | FunctionDef _ _ _ args body decorator_list rest
  | AsyncFunctionDef _ _ _ args body decorator_list rest =>
      args :: body ++ decorator_list ++ rest
  | ClassDef _ _ bases keywords body decorator_list type_params =>
      bases ++ keywords ++ body ++ decorator_list ++ type_params
  | Import _ names | ImportFrom _ _ names => AliasNode <$> names
  | AliasNode _ => []
  | Call _ func args keywords => func :: args ++ keywords
  | Name _ _ => []
  | Attribute _ value _ => [value]
  | Other children => children
  end.

(** Structural recursion over a node and the results for its children. *)
Fixpoint fold_node {A : Type} (f : node → list A → A) (n : node) : A :=
  match n with
  | Module body => f n (List.map (fold_node f) body)
  | FunctionDef _ _ _ args body decorator_list rest
  | AsyncFunctionDef _ _ _ args body decorator_list rest =>
      f n (fold_node f args :: List.map (fold_node f) body
             ++ List.map (fold_node f) decorator_list
             ++ List.map (fold_node f) rest)
  | ClassDef _ _ bases keywords body decorator_list type_params =>
      f n (List.map (fold_node f) bases ++ List.map (fold_node f) keywords
             ++ List.map (fold_node f) body
             ++ List.map (fold_node f) decorator_list
             ++ List.map (fold_node f) type_params)
  | Import _ names | ImportFrom _ _ names =>
      f n (List.map (λ a, f (AliasNode a) []) names)
  | AliasNode _ => f n []
  | Call _ func args keywords =>
      f n (fold_node f func :: List.map (fold_node f) args
             ++ List.map (fold_node f) keywords)
  | Name _ _ => f n []
  | Attribute _ value _ => f n [fold_node f value]
  | Other children => f n (List.map (fold_node f) children)
  end.

(** Number of nodes of a tree. *)
Definition tree_size : node → nat := fold_node (λ _ sizes, S (sum_list sizes)).

(** The nodes of a tree in depth-first pre-order. *)
Definition preorder : node → list node :=
  fold_node (λ n subtrees, n :: concat subtrees).

(** [ast.walk]: a queue of nodes still to visit; each step pops the first
    node, appends its children at the end of the queue and yields the node.
    [fuel] bounds the number of iterations of the [while todo] loop. *)
Fixpoint walk_queue (fuel : nat) (todo : list node) : list node :=
  match fuel with
  | O => []
  | S fuel' =>
      match todo with
      | [] => []
      | n :: todo' => n :: walk_queue fuel' (todo' ++ iter_child_nodes n)
      end
  end.

Definition walk (n : node) : list node := walk_queue (tree_size n) [n].

(** Number of nodes reachable from a queue. *)
Definition queue_size (todo : list node) : nat :=
  sum_list (tree_size <$> todo).

(** The [name] attribute of a definition. *)
Definition node_name (n : node) : string :=
  match n with
  | FunctionDef name _ _ _ _ _ _ | AsyncFunctionDef name _ _ _ _ _ _
  | ClassDef name _ _ _ _ _ _ => name
  | _ => ""
  end.

(** The [lineno] attribute, for the node classes that have one. *)
Definition node_lineno (n : node) : option Z :=
  match n with
  | FunctionDef _ lineno _ _ _ _ _ | AsyncFunctionDef _ lineno _ _ _ _ _
  | ClassDef _ lineno _ _ _ _ _ | Import lineno _ | ImportFrom lineno _ _
  | Call lineno _ _ _ | Name lineno _ | Attribute lineno _ _ => Some lineno
  | Module _ | AliasNode _ | Other _ => None
  end.

(** Function definitions, synchronous or asynchronous. *)
Definition is_function_def (n : node) : bool :=
  match n with
  | FunctionDef _ _ _ _ _ _ _ | AsyncFunctionDef _ _ _ _ _ _ _ => true
  | _ => false
  end.

End Ast.

(** ** Exceptions and the external parser *)

(** What [ast.parse] raises on malformed text, with the position the parser
    reports when it has one. *)
Record SyntaxError := {
  msg : string;
  err_lineno : option Z;
  err_offset : option Z
}.

(** Exceptions the analysers themselves can raise: a subscript of a [dict]
    with a key it does not hold. *)
Inductive exn := KeyError (key : string).

(** The outcome of a method: the value it returns, or the exception that
    leaves it uncaught. *)
Inductive result (A : Type) : Type :=
| Ok (a : A)
| Raise (e : exn).
Arguments Ok {A} a.
Arguments Raise {A} e.

#[global] Instance result_bind : MBind result := λ A B k m,
  match m with
  | Ok a => k a
  | Raise e => Raise e
  end.

(** [for x in xs: self = body(self, x)], stopping at the first exception. *)
Fixpoint for_each {S A : Type} (body : S → A → result S) (self : S)
    (xs : list A) : result S :=
  match xs with
  | [] => Ok self
  | x :: xs' => self' ← body self x; for_each body self' xs'
  end.

(** Truth value of a Python [str]. *)
Definition truthy (s : string) : bool := negb (String.eqb s "").

(** A parser that knows one source text and rejects every other. *)
Definition parse_only (code : string) (tree : Ast.node)
    : string → SyntaxError + Ast.node :=
  λ text, if String.eqb text code then inr tree
          else inl {| msg := "invalid syntax"; err_lineno := Some 1;
                      err_offset := Some 1 |}.

(** A line break. *)
Definition nl : string := String "010" "".

(** ** [relationships.py] *)

Module Relationships.
Import Ast.

Inductive call_type := function_call | method_call.

(** One entry of [self.relationships]. *)
Record edge := Edge {
  caller : option string;
  callee : string;
  line : Z;
  type : call_type
}.

Record RelationshipDetector := Detector {
  relationships : list edge;
  function_calls : gmap string (list string);
  current_function : option string
}.

(** [__init__] *)
Definition init : RelationshipDetector :=
  {| relationships := []; function_calls := ∅; current_function := None |}.

(** The [stats] dictionary; a key that is absent is [None]. *)
Record stats := Stats {
  total_calls : option Z;
  unique_callers : option Z;
  unique_callees : option Z;
  most_called : option (list (string * Z));
  most_calls_from : option (list (option string * Z))
}.

(** The dictionary [detect_relationships] returns. *)
Record detection := Detection {
  det_relationships : list edge;
  det_stats : stats
}.

(** The body of the loop of [_find_calls_in_node] for one node [child]. *)
Definition find_calls_step (self : RelationshipDetector) (child : node)
    : result RelationshipDetector :=
  match child with
  | Call lineno (Name _ called) _ _ =>
      let rels := relationships self ++
        [Edge (current_function self) called lineno function_call] in
      match current_function self with
      | Some cur =>
          if truthy cur then
            match function_calls self !! cur with
            | Some calls =>
                Ok (Detector rels (<[cur := calls ++ [called]]> (function_calls self))
                      (current_function self))
            | None => Raise (KeyError cur)
            end
          else Ok (Detector rels (function_calls self) (current_function self))
      | None => Ok (Detector rels (function_calls self) (current_function self))
      end
  | Call lineno (Attribute _ _ method) _ _ =>
      Ok (Detector
            (relationships self ++
               [Edge (current_function self) method lineno method_call])
            (function_calls self) (current_function self))
  | _ => Ok self
  end.

Definition _find_calls_in_node (self : RelationshipDetector) (n : node)
    : result RelationshipDetector :=
  for_each find_calls_step self (walk n).

(** The body of the loop of [_analyze_calls] for one node. *)
Definition analyze_calls_step (self : RelationshipDetector) (n : node)
    : result RelationshipDetector :=
  match n with
  | FunctionDef name _ _ _ _ _ _ | AsyncFunctionDef name _ _ _ _ _ _ =>
      _find_calls_in_node
        (Detector (relationships self) (<[name := []]> (function_calls self))
           (Some name))
        n
  | _ => Ok self
  end.

Definition _analyze_calls (self : RelationshipDetector) (tree : node)
    : result RelationshipDetector :=
  for_each analyze_calls_step self (walk tree).

(** [d[k] = d.get(k, 0) + 1] on a dictionary that keeps insertion order. *)
Fixpoint count_up {K : Type} `{EqDecision K} (k : K) (d : list (K * Z))
    : list (K * Z) :=
  match d with
  | [] => [(k, 1)]
  | (k', v) :: d' =>
      if decide (k = k') then (k', v + 1) :: d' else (k', v) :: count_up k d'
  end.

(** [sorted(items, key=lambda x: x[1], reverse=True)]: a stable sort, so
    items with equal counts keep their order.  Each item, from the last to
    the first, is put in front of the items sorted so far that do not have
    a greater count. *)
Fixpoint insert_desc {K : Type} (x : K * Z) (l : list (K * Z)) : list (K * Z) :=
  match l with
  | [] => [x]
  | y :: l' => if y.2 <=? x.2 then x :: y :: l' else y :: insert_desc x l'
  end.

Definition sorted_by_count_desc {K : Type} (items : list (K * Z)) : list (K * Z) :=
  foldr insert_desc [] items.

(** The slice [l[:limit]]. *)
Definition slice_to {A : Type} (limit : Z) (l : list A) : list A :=
  if 0 <=? limit then take (Z.to_nat limit) l
  else take (length l - Z.to_nat (- limit)) l.

Definition _get_most_called (self : RelationshipDetector) (limit : Z)
    : list (string * Z) :=
  let call_counts :=
    foldl (λ call_counts r, count_up (callee r) call_counts) [] (relationships self) in
  slice_to limit (sorted_by_count_desc call_counts).

Definition _get_most_calls_from (self : RelationshipDetector) (limit : Z)
    : list (option string * Z) :=
  let call_counts :=
    foldl (λ call_counts r, count_up (caller r) call_counts) [] (relationships self) in
  slice_to limit (sorted_by_count_desc call_counts).

Definition _calculate_stats (self : RelationshipDetector) : stats :=
  match relationships self with
  | [] => Stats (Some 0) (Some 0) (Some 0) None None
  | _ =>
      let unique_callers : gset (option string) :=
        list_to_set (caller <$> relationships self) in
      let unique_callees : gset string :=
        list_to_set (callee <$> relationships self) in
      Stats (Some (Z.of_nat (length (relationships self))))
            (Some (Z.of_nat (size unique_callers)))
            (Some (Z.of_nat (size unique_callees)))
            (Some (_get_most_called self 5))
            (Some (_get_most_calls_from self 5))
  end.

(** The empty dictionary [{}]. *)
Definition no_stats : stats := Stats None None None None None.

Section Detect.
Variable parse : string → SyntaxError + node.

Definition detect_relationships (self : RelationshipDetector) (code : string)
    : result (detection * RelationshipDetector) :=
  let self := Detector [] ∅ (current_function self) in
  match parse code with
  | inl _ => Ok (Detection [] no_stats, self)
  | inr tree =>
      self ← _analyze_calls self tree;
      Ok (Detection (relationships self) (_calculate_stats self), self)
  end.

End Detect.

(** *** Vocabulary for the properties *)

(** The edge a node stands for when the caller is [cur]: a call whose
    target is a bare name or an attribute access; nothing otherwise. *)
Definition call_edge (cur : option string) (n : node) : list edge :=
  match n with
  | Call lineno (Name _ called) _ _ => [Edge cur called lineno function_call]
  | Call lineno (Attribute _ _ method) _ _ => [Edge cur method lineno method_call]
  | _ => []
  end.

(** The edges one function definition contributes: every call in its
    subtree, in the order of [walk], with the function as caller. *)
Definition function_edges (n : node) : list edge :=
  match n with
  | FunctionDef name _ _ _ _ _ _ | AsyncFunctionDef name _ _ _ _ _ _ =>
      walk n ≫= call_edge (Some name)
  | _ => []
  end.

(** Number of edges when every edge-forming call counts once for each
    function definition around it; [depth] is the number of function
    definitions around [n]. *)
Definition edge_multiplicity (n : node) (depth : nat) : nat :=
  fold_node
    (λ n below depth,
       let depth' := if is_function_def n then S depth else depth in
       (length (call_edge None n) * depth' + sum_list ((λ m, m depth') <$> below))%nat)
    n depth.

(** The edge sequence as the specification words it: one depth-first
    pre-order pass, each call attributed to the innermost function
    definition around it, or to no caller at module scope. *)
Definition preorder_edges (n : node) (cur : option string) : list edge :=
  fold_node
    (λ n below cur,
       let cur' :=
         match n with
         | FunctionDef name _ _ _ _ _ _ | AsyncFunctionDef name _ _ _ _ _ _ =>
             Some name
         | _ => cur
         end in
       call_edge cur n ++ concat ((λ es, es cur') <$> below))
    n cur.

(** Position of the first occurrence of [c] in [l]. *)
Fixpoint first_seen (c : string) (l : list string) : nat :=
  match l with
  | [] => 0
  | x :: l' => if decide (x = c) then 0%nat else S (first_seen c l')
  end.

(** Number of occurrences of [c] in [l]. *)
Definition occurrences (c : string) (l : list string) : Z :=
  Z.of_nat (length (filter (λ x, x = c) l)).

(** [x] comes before [y] in the ranking: a greater count, or the same count
    and a name first seen earlier in [l]. *)
Definition ranks_before (l : list string) (x y : string * Z) : Prop :=
  y.2 < x.2 ∨ (x.2 = y.2 ∧ (first_seen x.1 l < first_seen y.1 l)%nat).

(** The result of [detect_relationships] as a function of the text. *)
Definition detection_of (parse : string → SyntaxError + node) (code : string)
    : detection :=
  match parse code with
  | inl _ => Detection [] no_stats
  | inr tree =>
      let edges := walk tree ≫= function_edges in
      Detection edges (_calculate_stats (Detector edges ∅ None))
  end.

(** [def f():] / [def g():] / [h()]: one call, inside two definitions. *)
Definition nested_source : string :=
  "def f():" ++ nl ++ "    def g():" ++ nl ++ "        h()".
Definition nested_tree : node :=
  Module [FunctionDef "f" 1 [] (Other [])
            [FunctionDef "g" 2 [] (Other [])
               [Other [Call 3 (Name 3 "h") [] []]] [] []] [] []].

(** [def f():] / [if c:] / [a()] / [b()]: the call of [a] comes first in
    the text and lies deeper in the tree than the call of [b]. *)
Definition branch_source : string :=
  "def f():" ++ nl ++ "    if c:" ++ nl ++ "        a()" ++ nl ++ "    b()".
Definition branch_tree : node :=
  Module [FunctionDef "f" 1 [] (Other [])
            [Other [Name 2 "c"; Other [Call 3 (Name 3 "a") [] []]];
             Other [Call 4 (Name 4 "b") [] []]] [] []].

(** [main()] at module scope. *)
Definition toplevel_source : string := "main()".
Definition toplevel_tree : node := Module [Other [Call 1 (Name 1 "main") [] []]].


(** *** Vocabulary for the statistics and for [function_calls] *)

(** The name a node adds to [function_calls] under its caller: the target
    of a call of a bare name. *)
Definition direct_callee (n : node) : list string :=
  match n with
  | Call _ (Name _ called) _ _ => [called]
  | _ => []
  end.

(** The bare names called in the subtree of a definition, in the order of
    [walk]; nothing when the name of the definition is the empty string. *)
Definition direct_calls (n : node) : list string :=
  if truthy (node_name n) then walk n ≫= direct_callee else [].

(** The function definitions called [name] among the nodes [l]. *)
Definition definitions_named (name : string) (l : list node) : list node :=
  filter (λ n, is_function_def n = true ∧ node_name n = name) l.

(** Position of the first occurrence, number of occurrences and ranking
    for keys of any type, as [first_seen], [occurrences] and [ranks_before]
    are for callee names. *)
Fixpoint first_index {K : Type} `{EqDecision K} (k : K) (l : list K) : nat :=
  match l with
  | [] => 0
  | x :: l' => if decide (x = k) then 0%nat else S (first_index k l')
  end.

Definition count_of {K : Type} `{EqDecision K} (k : K) (l : list K) : Z :=
  Z.of_nat (length (filter (λ x, x = k) l)).

Definition ranked_before {K : Type} `{EqDecision K} (l : list K)
    (x y : K * Z) : Prop :=
  y.2 < x.2 ∨ (x.2 = y.2 ∧ (first_index x.1 l < first_index y.1 l)%nat).

#[global] Instance call_type_eq_dec : EqDecision call_type.
Proof. solve_decision. Defined.

(** Sum of the counts of a list of pairs. *)
Definition total_count {K : Type} (items : list (K * Z)) : Z :=
  foldr Z.add 0 items.*2.

(** The dictionary of counts the two ranking methods build. *)
Definition tally {K : Type} `{EqDecision K} (l : list K) : list (K * Z) :=
  foldl (λ call_counts k, count_up k call_counts) [] l.

End Relationships.


(** ** [extractor.py] *)

Module Extractor.
Import Ast.

(** An entry of [entities["classes"]]. *)
Record ClassEntity := {
  class_name : string;
  class_line : Z;
  methods : list string;
  method_count : Z;
  bases : list string;
  class_docstring : string
}.

(** An entry of [entities["functions"]]. *)
Record FunctionEntity := {
  function_name : string;
  function_line : Z;
  args : list string;
  arg_count : Z;
  function_decorators : list string;
  function_docstring : string
}.

(** An entry of [entities["imports"]]: ["type": "import"] or
    ["type": "from"]. *)
Inductive ImportRecord :=
| import_record (module : string) (alias : option string) (line : Z)
| from_record (module name : string) (alias : option string) (line : Z).

(** The [entities] dictionary; [file_path] and [total_lines] are absent
    ([None]) until a file has been read. *)
Record Entities := {
  classes : list ClassEntity;
  functions : list FunctionEntity;
  imports : list ImportRecord;
  decorators : list string;
  file_path : option string;
  total_lines : option Z
}.

Record CodeExtractor := {
  entities : Entities;
  current_file : string
}.

(** [__init__] *)
Definition init : CodeExtractor :=
  {| entities := Build_Entities [] [] [] [] None None; current_file := "" |}.

(** The exception a failed [open] or [read] raises. *)
Inductive read_error := ReadError (what : string).

(** What the methods write with [print]. *)
Inductive output :=
| error_reading_file (file_path : string) (e : read_error)
| syntax_error_in (file_path : string) (e : SyntaxError).

(** [s.split(sep)] for a one-character separator. *)
Fixpoint split (sep : Ascii.ascii) (s : string) : list string :=
  match s with
  | EmptyString => [""]
  | String c s' =>
      if Ascii.eqb c sep then "" :: split sep s'
      else match split sep s' with
           | piece :: pieces => String c piece :: pieces
           | [] => [String c ""]
           end
  end.

(** [needle in hay] *)
Fixpoint contains (needle hay : string) : bool :=
  match hay with
  | EmptyString => String.prefix needle hay
  | String _ hay' => String.prefix needle hay || contains needle hay'
  end.

Definition with_classes (e : Entities) (cs : list ClassEntity) : Entities :=
  Build_Entities cs (functions e) (imports e) (decorators e) (file_path e)
    (total_lines e).
Definition with_functions (e : Entities) (fs : list FunctionEntity) : Entities :=
  Build_Entities (classes e) fs (imports e) (decorators e) (file_path e)
    (total_lines e).
Definition with_imports (e : Entities) (rs : list ImportRecord) : Entities :=
  Build_Entities (classes e) (functions e) rs (decorators e) (file_path e)
    (total_lines e).

Section Extract.
(** [open(file_path, ...).read()], [ast.parse], [ast.unparse] and
    [ast.get_docstring]. *)
Variable read_file : string → read_error + string.
Variable parse : string → SyntaxError + node.
Variable unparse : node → string.
Variable get_docstring : node → option string.

Definition is_FunctionDef (n : node) : bool :=
  match n with FunctionDef _ _ _ _ _ _ _ => true | _ => false end.

Definition _extract_class (self : CodeExtractor) (name : string) (lineno : Z)
    (node_bases node_body : list node) (n : node) : CodeExtractor :=
  let methods := node_name <$> filter (λ n, is_FunctionDef n = true) node_body in
  let bases := unparse <$> node_bases in
  let entity := {|
    class_name := name;
    class_line := lineno;
    methods := methods;
    method_count := Z.of_nat (length methods);
    bases := match bases with [] => ["object"] | _ => bases end;
    class_docstring := default "" (get_docstring n)
  |} in
  {| entities := with_classes (entities self) (classes (entities self) ++ [entity]);
     current_file := current_file self |}.

Definition _extract_function (self : CodeExtractor) (name : string) (lineno : Z)
    (arg_names : list string) (decorator_list : list node) (n : node)
    : CodeExtractor :=
  let decorators := unparse <$> decorator_list in
  let entity := {|
    function_name := name;
    function_line := lineno;
    args := arg_names;
    arg_count := Z.of_nat (length arg_names);
    function_decorators := decorators;
    function_docstring := default "" (get_docstring n)
  |} in
  {| entities := with_functions (entities self) (functions (entities self) ++ [entity]);
     current_file := current_file self |}.

Definition _extract_import (self : CodeExtractor) (n : node) : CodeExtractor :=
  let records :=
    match n with
    | Import lineno names =>
        (λ a, import_record (alias_name a) (asname a) lineno) <$> names
    | ImportFrom lineno module names =>
        (λ a, from_record (default "" module) (alias_name a) (asname a) lineno)
          <$> names
    | _ => []
    end in
  {| entities := with_imports (entities self) (imports (entities self) ++ records);
     current_file := current_file self |}.

(** The body of the loop of [_walk_tree] for one node. *)
Definition walk_tree_step (self : CodeExtractor) (n : node) : CodeExtractor :=
  match n with
  | ClassDef name lineno bases _ body _ _ =>
      _extract_class self name lineno bases body n
  | FunctionDef name lineno arg_names _ _ decorator_list _ =>
      _extract_function self name lineno arg_names decorator_list n
  | Import _ _ | ImportFrom _ _ _ => _extract_import self n
  | _ => self
  end.

Definition _walk_tree (self : CodeExtractor) (tree : node) : CodeExtractor :=
  foldl walk_tree_step self (walk tree).

Definition extract_from_file (self : CodeExtractor) (file_path : string)
    : Entities * CodeExtractor * list output :=
  match read_file file_path with
  | inl e => (entities self, self, [error_reading_file file_path e])
  | inr code =>
      let self := {|
        entities := {|
          classes := []; functions := []; imports := []; decorators := [];
          file_path := Some file_path;
          total_lines := Some (Z.of_nat (length (split "010"%char code)))
        |};
        current_file := file_path
      |} in
      match parse code with
      | inr tree =>
          let self := _walk_tree self tree in
          (entities self, self, [])
      | inl e => (entities self, self, [syntax_error_in file_path e])
      end
  end.

(** The dictionary [extract_from_directory] returns. *)
Record AllEntities := {
  all_classes : list ClassEntity;
  all_functions : list FunctionEntity;
  all_imports : list ImportRecord;
  files : list Entities
}.

(** [Path(dir_path).rglob("*.py")], as path strings. *)
Variable rglob : string → list string.

(** The body of the loop of [extract_from_directory] for one path. *)
Definition extract_directory_step
    (state : AllEntities * CodeExtractor * list output) (py_file : string)
    : AllEntities * CodeExtractor * list output :=
  let '(all_entities, self, out) := state in
  if negb (contains "__pycache__" py_file) then
    let '(entities, self, printed) := extract_from_file self py_file in
    ({| files := files all_entities ++ [entities];
        all_classes := all_classes all_entities ++ classes entities;
        all_functions := all_functions all_entities ++ functions entities;
        all_imports := all_imports all_entities ++ imports entities |},
     self, out ++ printed)
  else (all_entities, self, out).

Definition extract_from_directory (self : CodeExtractor) (dir_path : string)
    : AllEntities * CodeExtractor * list output :=
  foldl extract_directory_step
    ({| all_classes := []; all_functions := []; all_imports := []; files := [] |},
     self, [])
    (rglob dir_path).

End Extract.

(** *** Vocabulary for the properties *)

(** The extractor a readable file leaves before its tree is walked. *)
Definition fresh (file_path code : string) : CodeExtractor :=
  {| entities := {|
       classes := []; functions := []; imports := []; decorators := [];
       file_path := Some file_path;
       total_lines := Some (Z.of_nat (length (split "010"%char code)))
     |};
     current_file := file_path |}.

(** The class entries one node adds. *)
Definition class_entries (unparse : node → string)
    (get_docstring : node → option string) (n : node) : list ClassEntity :=
  classes (entities (walk_tree_step unparse get_docstring init n)).

(** The function entries and the import entries one node adds. *)
Definition function_entries (unparse : node → string)
    (get_docstring : node → option string) (n : node) : list FunctionEntity :=
  functions (entities (walk_tree_step unparse get_docstring init n)).

Definition import_entries (n : node) : list ImportRecord :=
  imports (entities (_extract_import init n)).

(** Number of names an import statement binds; 0 for any other node. *)
Definition imported_names (n : node) : nat :=
  match n with
  | Import _ names | ImportFrom _ _ names => length names
  | _ => 0%nat
  end.

(** The ["line"] of an import entry. *)
Definition import_line (r : ImportRecord) : Z :=
  match r with
  | import_record _ _ line | from_record _ _ _ line => line
  end.

(** Number of occurrences of a character in a text. *)
Fixpoint count_char (c : Ascii.ascii) (s : string) : nat :=
  match s with
  | EmptyString => 0
  | String c' s' => ((if Ascii.eqb c' c then 1 else 0) + count_char c s')%nat
  end.

(** [class Service:] with [async def m(self)] and [def n(self)]. *)
Definition async_source : string :=
  "class Service:" ++ nl ++ "    async def m(self): pass" ++ nl
  ++ "    def n(self): pass".
Definition async_tree : node :=
  Module [ClassDef "Service" 1 [] []
            [AsyncFunctionDef "m" 2 ["self"] (Other [Other []]) [Other []] [] [];
             FunctionDef "n" 3 ["self"] (Other [Other []]) [Other []] [] []]
            [] []].

(** [import os, sys as s] / [from . import x]. *)
Definition imports_source : string :=
  "import os, sys as s" ++ nl ++ "from . import x".
Definition imports_tree : node :=
  Module [Import 1 [Alias "os" None; Alias "sys" (Some "s")];
          ImportFrom 2 None [Alias "x" None]].

(** A file system that holds one readable file. *)
Definition read_only (path code : string) : string → read_error + string :=
  λ p, if String.eqb p path then inr code
       else inl (ReadError "No such file or directory").

(** An unparser and a docstring reader for trees without base classes,
    decorators and docstrings. *)
Definition unparse_none : node → string := λ _, "".
Definition get_docstring_none : node → option string := λ _, None.

(** [class Outer:] with methods [a] and [b] and a nested [class Inner:]
    with method [c]. *)
Definition outer_source : string :=
  "class Outer:" ++ nl ++ "    def a(self): pass" ++ nl
  ++ "    def b(self): pass" ++ nl ++ "    class Inner:" ++ nl
  ++ "        def c(self): pass".
Definition outer_tree : node :=
  Module [ClassDef "Outer" 1 [] []
            [FunctionDef "a" 2 ["self"] (Other [Other []]) [Other []] [] [];
             FunctionDef "b" 3 ["self"] (Other [Other []]) [Other []] [] [];
             ClassDef "Inner" 4 [] []
               [FunctionDef "c" 5 ["self"] (Other [Other []]) [Other []] [] []]
               [] []]
            [] []].

End Extractor.

(** ** [errors.py]: the rules on classes and on [validate] *)

Module Errors.
Import Ast.

(** An entry of [self.errors] or [self.warnings]. *)
Record issue := Issue {
  issue_type : string;
  message : string;
  issue_line : option Z
}.

Record ErrorDetector := {
  errors : list issue;
  warnings : list issue
}.

(** [__init__] *)
Definition init : ErrorDetector := {| errors := []; warnings := [] |}.

(** The body of the loop of [_check_large_classes] for one node. *)
Definition check_large_classes_step (limit : Z) (self : ErrorDetector)
    (n : node) : ErrorDetector :=
  match n with
  | ClassDef name lineno _ _ body _ _ =>
      let methods := filter (λ n, Extractor.is_FunctionDef n = true) body in
      if limit <? Z.of_nat (length methods) then
        {| errors := errors self;
           warnings := warnings self ++
             [Issue "LargeClass"
                ("Class '" +:+ name +:+ "' has too many methods ("
                 +:+ pretty (length methods) +:+ ")")
                (Some lineno)] |}
      else self
  | _ => self
  end.

Definition _check_large_classes (self : ErrorDetector) (tree : node)
    (limit : Z) : ErrorDetector :=
  foldl (check_large_classes_step limit) self (walk tree).

(** [getattr(n, "id", "")]: only [Name] nodes have an [id]. *)
Definition getattr_id (n : node) : string :=
  match n with
  | Name _ id => id
  | _ => ""
  end.

(** [isinstance(n, ast.Call) and getattr(n.func, "id", "") == "throw"] *)
Definition is_throw_call (n : node) : bool :=
  match n with
  | Call _ func _ _ => String.eqb (getattr_id func) "throw"
  | _ => false
  end.

(** The body of the outer loop of [_check_erpnext_validations]; the state
    is the pair of [has_validate] and [has_throw]. *)
Definition erpnext_validations_step (flags : bool * bool) (n : node)
    : bool * bool :=
  match n with
  | FunctionDef name _ _ _ _ _ _ =>
      if String.eqb name "validate" then
        (true,
         foldl (λ has_throw n, if is_throw_call n then true else has_throw)
           flags.2 (walk n))
      else flags
  | _ => flags
  end.

Definition _check_erpnext_validations (self : ErrorDetector) (tree : node)
    : ErrorDetector :=
  let '(has_validate, has_throw) :=
    foldl erpnext_validations_step (false, false) (walk tree) in
  if has_validate && negb has_throw then
    {| errors := errors self;
       warnings := warnings self ++
         [Issue "ERPNextValidation"
            "`validate()` found but no frappe.throw() used" None] |}
  else self.

(** *** Vocabulary for the properties *)

(** A class definition with more than [limit] [def] statements in its
    body. *)
Definition is_large_class (limit : Z) (n : node) : bool :=
  match n with
  | ClassDef _ _ _ _ body _ _ =>
      limit <? Z.of_nat (length (filter (λ n, Extractor.is_FunctionDef n = true) body))
  | _ => false
  end.

(** A [def validate]. *)
Definition is_validate (n : node) : bool :=
  match n with
  | FunctionDef name _ _ _ _ _ _ => String.eqb name "validate"
  | _ => false
  end.

(** [def validate(self):] / [frappe.throw(msg)]. *)
Definition validate_source : string :=
  "def validate(self):" ++ nl ++ "    frappe.throw(msg)".
Definition validate_tree : node :=
  Module [FunctionDef "validate" 1 ["self"] (Other [Other []])
            [Other [Call 2 (Attribute 2 (Name 2 "frappe") "throw")
                      [Name 2 "msg"] []]] [] []].

End Errors.

(** ** [rag.py]: splitting a text into chunks *)

Module Rag.

(** An entry of the list [chunk_code] returns. *)
Record chunk := Chunk {
  text : string;
  start_line : Z;
  end_line : Z
}.

(** What [range] raises when its step is zero. *)
Inductive range_error := ValueError (what : string).

(** [range(0, stop, step)] *)
Definition range (stop step : Z) : range_error + list Z :=
  if step =? 0 then inl (ValueError "range() arg 3 must not be zero")
  else
    let count :=
      if 0 <? step then (if 0 <? stop then (stop + step - 1) / step else 0)
      else (if stop <? 0 then (- stop - step - 1) / (- step) else 0) in
    inr ((λ k, Z.of_nat k * step) <$> seq 0 (Z.to_nat count)).

(** An index of a slice, brought into the bounds of a list of [len]
    items: a negative index counts from the end. *)
Definition slice_index (len : nat) (i : Z) : nat :=
  Z.to_nat (if i <? 0 then Z.max (i + Z.of_nat len) 0 else Z.min i (Z.of_nat len)).

(** The slice [l[i:j]]. *)
Definition slice {A : Type} (i j : Z) (l : list A) : list A :=
  take (slice_index (length l) j - slice_index (length l) i)
    (drop (slice_index (length l) i) l).

(** [sep.join(pieces)] *)
Fixpoint join (sep : string) (pieces : list string) : string :=
  match pieces with
  | [] => ""
  | [piece] => piece
  | piece :: pieces' => piece +:+ sep +:+ join sep pieces'
  end.

Section Chunking.
(** [str.strip] *)
Variable strip : string → string.

(** The body of the loop of [chunk_code] for the index [i]. *)
Definition chunk_at (lines : list string) (chunk_size : Z) (i : Z) : list chunk :=
  let chunk_lines := slice i (i + chunk_size) lines in
  let text := join nl chunk_lines in
  if truthy (strip text) then
    [Chunk text (i + 1) (Z.min (i + chunk_size) (Z.of_nat (length lines)))]
  else [].

Definition chunk_code (code : string) (chunk_size overlap : Z)
    : range_error + list chunk :=
  let lines := Extractor.split "010"%char code in
  let step := chunk_size - overlap in
  match range (Z.of_nat (length lines)) step with
  | inl e => inl e
  | inr indices => inr (indices ≫= chunk_at lines chunk_size)
  end.

End Chunking.

(** *** Vocabulary for the properties *)

(** The lines of the chunk that starts after [i] lines. *)
Definition window (code : string) (chunk_size i : Z) : list string :=
  let lines := Extractor.split "010"%char code in
  take (Z.to_nat (Z.min (i + chunk_size) (Z.of_nat (length lines)) - i))
    (drop (Z.to_nat i) lines).

End Rag.

(** * Properties *)

(** ** The syntax tree and its two traversals *)

Module AstFacts.
Import Ast.

Arguments tree_size : simpl never.
Arguments walk : simpl never.
Arguments preorder : simpl never.

Lemma fold_node_children {A : Type} (f : node → list A → A) (n : node) :
  fold_node f n = f n (fold_node f <$> iter_child_nodes n).
Proof.
  destruct n; simpl; try reflexivity.
  all: f_equal; rewrite ?fmap_app; try reflexivity.
  all: induction names as [|a names IH]; simpl; [done|].
  all: f_equal; exact IH.
Qed.

Lemma tree_size_children (n : node) :
  tree_size n = S (sum_list (tree_size <$> iter_child_nodes n)).
Proof. unfold tree_size at 1. by rewrite fold_node_children. Qed.

Lemma preorder_children (n : node) :
  preorder n = n :: (iter_child_nodes n ≫= preorder).
Proof.
  unfold preorder at 1. rewrite fold_node_children. f_equal.
  generalize (iter_child_nodes n). induction l as [|c l IH]; simpl; [done|].
  f_equal. exact IH.
Qed.

Lemma sum_list_elem (x : nat) (l : list nat) : x ∈ l → (x ≤ sum_list l)%nat.
Proof. induction 1; simpl; lia. Qed.

(** Induction on trees: a property that passes from the children of a node
    to the node holds of every tree. *)
Lemma node_children_ind (P : node → Prop) :
  (∀ n, Forall P (iter_child_nodes n) → P n) → ∀ n, P n.
Proof.
  intros step n. remember (tree_size n) as k eqn:Hk.
  revert n Hk. induction k as [k IH] using lt_wf_ind. intros n ->.
  apply step, Forall_forall. intros c Hc. apply (IH (tree_size c)); [|done].
  rewrite (tree_size_children n).
  assert (tree_size c ≤ sum_list (tree_size <$> iter_child_nodes n))%nat; [|lia].
  apply sum_list_elem, list_elem_of_fmap. eauto.
Qed.

Lemma tree_size_pos (n : node) : (0 < tree_size n)%nat.
Proof. rewrite tree_size_children. lia. Qed.

Lemma queue_size_step (n : node) (todo : list node) :
  queue_size (n :: todo) = S (queue_size (todo ++ iter_child_nodes n)).
Proof.
  unfold queue_size. rewrite fmap_cons, fmap_app, sum_list_with_app.
  cbn [sum_list sum_list_with]. rewrite tree_size_children. unfold id, sum_list. lia.
Qed.

(** With fuel for every node still reachable from the queue, the loop of
    [ast.walk] visits exactly the nodes of the queued trees. *)
Lemma walk_queue_preorder (fuel : nat) (todo : list node) :
  (queue_size todo ≤ fuel)%nat →
  walk_queue fuel todo ≡ₚ todo ≫= preorder.
Proof.
  revert todo. induction fuel as [|fuel IH]; intros [|n todo] Hfuel;
    try reflexivity.
  - rewrite queue_size_step in Hfuel. lia.
  - rewrite queue_size_step in Hfuel.
    cbn [walk_queue mbind list_bind]. rewrite preorder_children.
    simpl. constructor. rewrite IH by lia.
    rewrite bind_app. apply Permutation_app_comm.
Qed.

(** The loop ends because the queue is empty, not because fuel runs out:
    more fuel yields the same sequence. *)
Lemma walk_queue_fuel (fuel : nat) (todo : list node) :
  (queue_size todo ≤ fuel)%nat →
  walk_queue fuel todo = walk_queue (queue_size todo) todo.
Proof.
  revert todo. induction fuel as [|fuel IH]; intros [|n todo] Hfuel;
    try reflexivity.
  - rewrite queue_size_step in Hfuel. lia.
  - rewrite queue_size_step in *. cbn [walk_queue]. f_equal. apply IH. lia.
Qed.

Lemma queue_size_singleton (n : node) : queue_size [n] = tree_size n.
Proof. unfold queue_size. simpl. lia. Qed.

Lemma walk_preorder (n : node) : walk n ≡ₚ preorder n.
Proof.
  unfold walk. rewrite walk_queue_preorder by by rewrite queue_size_singleton.
  simpl. by rewrite app_nil_r.
Qed.

End AstFacts.

(** ** The relationship detector *)

Module RelationshipsFacts.
Import Ast AstFacts Relationships.

Lemma for_each_app {S A : Type} (body : S → A → result S) (self : S)
    (xs ys : list A) :
  for_each body self (xs ++ ys) =
  (self' ← for_each body self xs; for_each body self' ys).
Proof.
  revert self. induction xs as [|x xs IH]; intros self; simpl; [done|].
  destruct (body self x); simpl; [apply IH|done].
Qed.

(** One step of the inner loop, once [current_function] names a key of
    [function_calls]: the edge of the node is appended, nothing is raised. *)
Lemma find_calls_step_ok (self : RelationshipDetector) (child : node)
    (cur : string) :
  current_function self = Some cur →
  is_Some (function_calls self !! cur) →
  ∃ fc, find_calls_step self child =
          Ok (Detector (relationships self ++ call_edge (Some cur) child) fc
                (Some cur))
        ∧ is_Some (fc !! cur).
Proof.
  destruct self as [rels fc cf]; simpl. intros -> [calls Hcalls].
  destruct child as [| | | | | | |lineno func ? ?| | |];
    try (exists fc; simpl; rewrite app_nil_r; by eauto).
  destruct func; try (exists fc; simpl; rewrite ?app_nil_r; by eauto).
  simpl. rewrite Hcalls. destruct (truthy cur); eauto.
  eexists; split; [done|]. rewrite lookup_insert_eq. eauto.
Qed.

Lemma find_calls_loop_ok (l : list node) (self : RelationshipDetector)
    (cur : string) :
  current_function self = Some cur →
  is_Some (function_calls self !! cur) →
  ∃ fc, for_each find_calls_step self l =
          Ok (Detector (relationships self ++ (l ≫= call_edge (Some cur))) fc
                (Some cur))
        ∧ is_Some (fc !! cur).
Proof.
  revert self. induction l as [|child l IH]; intros self Hcur Hkey.
  - destruct self as [rels fc cf]; simpl in *; subst.
    exists fc. by rewrite app_nil_r.
  - destruct (find_calls_step_ok self child cur Hcur Hkey) as (fc & Hstep & Hfc).
    cbn [for_each]. rewrite Hstep. cbn [mbind result_bind].
    destruct (IH (Detector (relationships self ++ call_edge (Some cur) child)
                    fc (Some cur))) as (fc' & Hloop & Hfc'); [done..|].
    exists fc'. split; [|done].
    rewrite Hloop. cbn [relationships mbind list_bind]. by rewrite <-(assoc_L (++)).
Qed.

(** One step of the outer loop never raises and appends the edges of the
    node when it is a function definition. *)
Lemma analyze_calls_step_ok (self : RelationshipDetector) (n : node) :
  ∃ fc cf, analyze_calls_step self n =
             Ok (Detector (relationships self ++ function_edges n) fc cf).
Proof.
  destruct n; try (destruct self; simpl; rewrite app_nil_r; by eauto).
  all: unfold analyze_calls_step, _find_calls_in_node, function_edges.
  all: edestruct find_calls_loop_ok as (fc & -> & _);
    [| |by eauto]; simpl; [done|by rewrite lookup_insert_eq].
Qed.

Lemma analyze_calls_loop_ok (l : list node) (self : RelationshipDetector) :
  ∃ fc cf, for_each analyze_calls_step self l =
             Ok (Detector (relationships self ++ (l ≫= function_edges)) fc cf).
Proof.
  revert self. induction l as [|n l IH]; intros self.
  - destruct self; simpl. rewrite app_nil_r. eauto.
  - destruct (analyze_calls_step_ok self n) as (fc & cf & Hstep).
    cbn [for_each]. rewrite Hstep. cbn [mbind result_bind].
    destruct (IH (Detector (relationships self ++ function_edges n) fc cf))
      as (fc' & cf' & ->).
    exists fc', cf'. cbn [relationships mbind list_bind]. by rewrite <-(assoc_L (++)).
Qed.

(** The statistics are a function of the edge list alone. *)
Lemma _calculate_stats_relationships (self : RelationshipDetector) :
  _calculate_stats self = _calculate_stats (Detector (relationships self) ∅ None).
Proof. by destruct self. Qed.

(** What a call of [detect_relationships] returns on text that parses,
    whatever the instance held before. *)
Lemma detect_relationships_parsed (parse : string → SyntaxError + node)
    (self : RelationshipDetector) (code : string) (tree : node) :
  parse code = inr tree →
  ∃ fc cf,
    detect_relationships parse self code =
      Ok (Detection (walk tree ≫= function_edges)
            (_calculate_stats (Detector (walk tree ≫= function_edges) ∅ None)),
          Detector (walk tree ≫= function_edges) fc cf).
Proof.
  intros Hparse. unfold detect_relationships, _analyze_calls. rewrite Hparse.
  destruct (analyze_calls_loop_ok (walk tree) (Detector [] ∅ (current_function self)))
    as (fc & cf & ->).
  exists fc, cf. cbn [mbind result_bind relationships app].
  by rewrite (_calculate_stats_relationships (Detector _ fc cf)).
Qed.

Lemma detect_relationships_malformed (parse : string → SyntaxError + node)
    (self : RelationshipDetector) (code : string) (e : SyntaxError) :
  parse code = inl e →
  detect_relationships parse self code =
    Ok (Detection [] no_stats, Detector [] ∅ (current_function self)).
Proof. intros Hparse. unfold detect_relationships. by rewrite Hparse. Qed.

(** Whatever the instance held before, the call returns [detection_of]. *)
Lemma detect_relationships_result (parse : string → SyntaxError + node)
    (self : RelationshipDetector) (code : string) :
  ∃ self', detect_relationships parse self code = Ok (detection_of parse code, self')
           ∧ relationships self' = det_relationships (detection_of parse code).
Proof.
  unfold detection_of. destruct (parse code) as [e|tree] eqn:Hparse.
  - rewrite (detect_relationships_malformed _ _ _ _ Hparse). eauto.
  - destruct (detect_relationships_parsed _ self _ _ Hparse) as (fc & cf & ->).
    eauto.
Qed.

(** *** Counting edges *)

Lemma length_bind {A B : Type} (f : A → list B) (l : list A) :
  length (l ≫= f) = sum_list ((λ x, length (f x)) <$> l).
Proof.
  induction l as [|x l IH]; [done|].
  cbn [mbind list_bind fmap list_fmap]. rewrite length_app.
  change (list_bind _ _ f l) with (l ≫= f). rewrite IH. done.
Qed.

Lemma length_bind_bind {A B C : Type} (f : A → list B) (g : B → list C)
    (l : list A) :
  length ((l ≫= f) ≫= g) = sum_list ((λ x, length (f x ≫= g)) <$> l).
Proof.
  induction l as [|x l IH]; [done|].
  cbn [mbind list_bind fmap list_fmap].
  change (list_bind _ _ f l) with (l ≫= f).
  change (list_bind _ _ g ?k) with (k ≫= g).
  rewrite bind_app, length_app, IH. done.
Qed.

Lemma sum_list_linear {A : Type} (k : nat) (f g : A → nat) (l : list A) :
  sum_list ((λ x, k * f x + g x)%nat <$> l) =
  (k * sum_list (f <$> l) + sum_list (g <$> l))%nat.
Proof.
  induction l as [|x l IH]; [simpl; lia|].
  rewrite !fmap_cons. cbn [sum_list_with]. rewrite IH. unfold id. lia.
Qed.

Lemma sum_list_ext {A : Type} (f g : A → nat) (l : list A) :
  Forall (λ x, f x = g x) l → sum_list (f <$> l) = sum_list (g <$> l).
Proof.
  induction 1 as [|x l Hx _ IH]; [done|].
  rewrite !fmap_cons. cbn [sum_list_with]. by rewrite Hx, IH.
Qed.

Lemma length_call_edge (cur : option string) (n : node) :
  length (call_edge cur n) = length (call_edge None n).
Proof. destruct n as [| | | | | | |? func ? ?| | |]; try done. by destruct func. Qed.

Lemma length_call_edges (cur : option string) (l : list node) :
  length (l ≫= call_edge cur) = length (l ≫= call_edge None).
Proof.
  rewrite !length_bind. apply sum_list_ext, Forall_forall. intros n _.
  apply length_call_edge.
Qed.

Lemma call_edge_function_def (cur : option string) (n : node) :
  is_function_def n = true → call_edge cur n = [].
Proof. by destruct n. Qed.

Lemma length_function_edges (n : node) :
  length (function_edges n) =
  if is_function_def n then length (preorder n ≫= call_edge None) else 0%nat.
Proof.
  destruct n; try done; cbn [function_edges is_function_def].
  all: rewrite length_call_edges; apply Permutation_length.
  all: by rewrite walk_preorder.
Qed.

Lemma edge_multiplicity_children (n : node) (depth : nat) :
  edge_multiplicity n depth =
  let depth' := if is_function_def n then S depth else depth in
  (length (call_edge None n) * depth'
   + sum_list ((λ c, edge_multiplicity c depth') <$> iter_child_nodes n))%nat.
Proof.
  unfold edge_multiplicity at 1. rewrite fold_node_children.
  cbv zeta. by rewrite <-list_fmap_compose.
Qed.

(** Each edge-forming call below [n] counts [depth] times for the
    definitions around [n], and once more for every definition between [n]
    and the call. *)
Lemma edge_multiplicity_spec (n : node) :
  ∀ depth,
    edge_multiplicity n depth =
    (depth * length (preorder n ≫= call_edge None)
     + length (preorder n ≫= function_edges))%nat.
Proof.
  induction n as [n IH] using node_children_ind. intros depth.
  rewrite edge_multiplicity_children. cbv zeta.
  rewrite (sum_list_ext _ _ _ (Forall_impl _ _ _ IH (λ c Hc, Hc _))).
  rewrite sum_list_linear.
  rewrite !(preorder_children n). cbn [mbind list_bind].
  change (list_bind _ _ ?f ?k) with (k ≫= f).
  rewrite !length_app, !length_bind_bind, length_function_edges.
  rewrite (preorder_children n). cbn [mbind list_bind].
  change (list_bind _ _ ?f ?k) with (k ≫= f).
  rewrite length_app, length_bind_bind.
  destruct (is_function_def n); lia.
Qed.

(** *** Where edges come from *)

Lemma preorder_self (n : node) : n ∈ preorder n.
Proof. rewrite preorder_children. left. Qed.

(** The nodes of a subtree are nodes of the tree. *)
Lemma preorder_subtree (t : node) :
  ∀ n m, n ∈ preorder t → m ∈ preorder n → m ∈ preorder t.
Proof.
  induction t as [t IH] using node_children_ind. intros n m Hn Hm.
  rewrite preorder_children in Hn. apply elem_of_cons in Hn as [->|Hn]; [done|].
  apply list_elem_of_bind in Hn as (c & Hn & Hc).
  rewrite preorder_children. right. apply list_elem_of_bind. exists c.
  split; [|done]. rewrite Forall_forall in IH. by eapply IH.
Qed.

Lemma elem_of_call_edge (cur : option string) (e : edge) (n : node) :
  e ∈ call_edge cur n →
  caller e = cur ∧ node_lineno n = Some (line e) ∧ ∃ l f a k, n = Call l f a k.
Proof.
  destruct n as [| | | | | | |l func a k| | |]; simpl; try by intros ?%elem_of_nil.
  destruct func; simpl; try by intros ?%elem_of_nil.
  all: intros ->%list_elem_of_singleton; simpl; eauto 10.
Qed.

(** Every edge is the edge of a call node in the subtree of a function
    definition of the tree, with that definition as caller. *)
Lemma elem_of_function_edges (tree : node) (e : edge) :
  e ∈ walk tree ≫= function_edges →
  ∃ f call, f ∈ preorder tree ∧ is_function_def f = true
            ∧ call ∈ preorder f ∧ e ∈ call_edge (Some (node_name f)) call.
Proof.
  intros (f & He & Hf)%list_elem_of_bind. rewrite walk_preorder in Hf.
  destruct f; cbn [function_edges] in He; try by apply elem_of_nil in He.
  all: apply list_elem_of_bind in He as (call & He & Hcall).
  all: rewrite walk_preorder in Hcall; eauto 10.
Qed.

(** *** Counting callees *)

Lemma occurrences_cons_eq (c : string) (l : list string) :
  occurrences c (c :: l) = 1 + occurrences c l.
Proof.
  unfold occurrences. rewrite filter_cons, decide_True by done. simpl length. lia.
Qed.

Lemma occurrences_cons_ne (c x : string) (l : list string) :
  x ≠ c → occurrences c (x :: l) = occurrences c l.
Proof. intros. unfold occurrences. by rewrite filter_cons, decide_False. Qed.

Lemma occurrences_filter_ne (c k : string) (l : list string) :
  k ≠ c → occurrences k (filter (λ x, x ≠ c) l) = occurrences k l.
Proof.
  intros Hk. induction l as [|x l IH]; [done|].
  rewrite filter_cons. destruct (decide (x = c)) as [->|Hx].
  - rewrite decide_False by naive_solver.
    rewrite occurrences_cons_ne by done. exact IH.
  - rewrite decide_True by done. destruct (decide (x = k)) as [->|Hxk].
    + by rewrite !occurrences_cons_eq, IH.
    + by rewrite !occurrences_cons_ne, IH.
Qed.

Lemma occurrences_pos (c : string) (l : list string) :
  c ∈ l → 1 ≤ occurrences c l.
Proof.
  induction l as [|x l IH]; [by intros ?%elem_of_nil|].
  assert (0 ≤ occurrences c l) by (unfold occurrences; lia).
  destruct (decide (x = c)) as [->|Hx].
  - rewrite occurrences_cons_eq. lia.
  - rewrite occurrences_cons_ne by done.
    intros [?|?]%elem_of_cons; [done|auto].
Qed.

(** The order of first occurrences survives taking one name out. *)
Lemma first_seen_filter_ne (c k1 k2 : string) (l : list string) :
  k1 ≠ c → k2 ≠ c →
  (first_seen k1 (filter (λ x, x ≠ c) l) < first_seen k2 (filter (λ x, x ≠ c) l))%nat →
  (first_seen k1 l < first_seen k2 l)%nat.
Proof.
  intros H1 H2. induction l as [|x l IH]; [done|].
  rewrite filter_cons. destruct (decide (x = c)) as [->|Hx].
  - rewrite decide_False by naive_solver. simpl.
    rewrite !decide_False by done. intros ?%IH. lia.
  - rewrite decide_True by done. simpl.
    repeat case_decide; lia.
Qed.

(** Once a name heads the dictionary, the loop of [_get_most_called] counts
    its further occurrences there and treats the other names as if it were
    not in the list. *)
Lemma count_up_loop_head (k : string) (n : Z) (d : list (string * Z))
    (l : list string) :
  foldl (λ d c, count_up c d) ((k, n) :: d) l =
  (k, n + occurrences k l)
    :: foldl (λ d c, count_up c d) d (filter (λ x, x ≠ k) l).
Proof.
  revert n d. induction l as [|x l IH]; intros n d.
  - simpl. unfold occurrences. simpl. by rewrite Z.add_0_r.
  - cbn [foldl count_up]. rewrite filter_cons.
    destruct (decide (x = k)) as [->|Hx].
    + rewrite decide_False by naive_solver.
      rewrite IH, occurrences_cons_eq. do 2 f_equal. lia.
    + rewrite decide_True by done.
      rewrite IH, occurrences_cons_ne by done. done.
Qed.

Lemma count_up_loop_cons (c : string) (l : list string) :
  foldl (λ d c, count_up c d) [] (c :: l) =
  (c, occurrences c (c :: l))
    :: foldl (λ d c, count_up c d) [] (filter (λ x, x ≠ c) l).
Proof.
  cbn [foldl count_up]. by rewrite count_up_loop_head, occurrences_cons_eq.
Qed.

Lemma StronglySorted_impl_elem {A : Type} (R R' : relation A) (l : list A) :
  (∀ x y, x ∈ l → y ∈ l → R x y → R' x y) →
  StronglySorted R l → StronglySorted R' l.
Proof.
  intros Himpl Hsorted. induction Hsorted as [|x l Hl IH Hx]; constructor.
  - apply IH. intros. apply Himpl; by try right.
  - rewrite Forall_forall in *. intros y Hy. apply Himpl; [left|by right|auto].
Qed.

(** The dictionary of counts: one entry per distinct name, with its number
    of occurrences, in the order in which the names are first seen. *)
Lemma count_up_loop_spec (l : list string) :
  let d := foldl (λ d c, count_up c d) [] l in
  (∀ k v, (k, v) ∈ d → k ∈ l ∧ v = occurrences k l)
  ∧ (∀ k, k ∈ l → (k, occurrences k l) ∈ d)
  ∧ NoDup d.*1
  ∧ StronglySorted (λ x y, first_seen x.1 l < first_seen y.1 l)%nat d.
Proof.
  remember (length l) as len eqn:Hlen. revert l Hlen.
  induction len as [len IH] using lt_wf_ind. intros [|c l] ->.
  { simpl. split_and!; [by intros ?? ?%elem_of_nil|by intros ? ?%elem_of_nil
                        |constructor|constructor]. }
  cbv zeta. rewrite count_up_loop_cons.
  destruct (IH (length (filter (λ x, x ≠ c) l))) with (l := filter (λ x, x ≠ c) l)
    as (Hval & Hkey & Hdup & Hsort); [|done|].
  { simpl. pose proof (length_filter (λ x, x ≠ c) l). lia. }
  cbv zeta in *.
  assert (Hne : ∀ k v,
    (k, v) ∈ foldl (λ d c, count_up c d) [] (filter (λ x, x ≠ c) l) →
    k ≠ c ∧ k ∈ l ∧ v = occurrences k (c :: l)).
  { intros k v [Hk ->]%Hval. apply list_elem_of_filter in Hk as [Hk ?].
    by rewrite occurrences_filter_ne, occurrences_cons_ne. }
  split_and!.
  - intros k v [[= -> ->]|Hk]%elem_of_cons; [split; [left|done]|].
    apply Hne in Hk as (? & ? & ?). split; [by right|done].
  - intros k Hk. destruct (decide (k = c)) as [->|Hkc]; [left|].
    right. apply elem_of_cons in Hk as [?|Hk]; [done|].
    rewrite occurrences_cons_ne by done.
    rewrite <-(occurrences_filter_ne c) by done.
    apply Hkey. by apply list_elem_of_filter.
  - rewrite fmap_cons. constructor; [|done].
    intros ([k v] & [= <-] & Hk)%list_elem_of_fmap. apply Hne in Hk as (? & _). done.
  - constructor.
    + eapply StronglySorted_impl_elem; [|exact Hsort].
      intros [k1 v1] [k2 v2] (? & _)%Hne (? & _)%Hne Hlt. simpl in *.
      rewrite !decide_False by done.
      apply ->Nat.succ_lt_mono. by eapply first_seen_filter_ne.
    + apply Forall_forall. intros [k v] (? & _)%Hne. simpl.
      rewrite decide_True, decide_False by done. lia.
Qed.

(** *** The stable sort *)

Lemma insert_desc_perm {K : Type} (x : K * Z) (l : list (K * Z)) :
  insert_desc x l ≡ₚ x :: l.
Proof.
  induction l as [|y l IH]; [done|]. simpl. case_match; [done|].
  by rewrite IH, Permutation_swap.
Qed.

Lemma sorted_by_count_desc_perm {K : Type} (items : list (K * Z)) :
  sorted_by_count_desc items ≡ₚ items.
Proof.
  induction items as [|x items IH]; [done|].
  cbn [sorted_by_count_desc foldr]. rewrite insert_desc_perm. by constructor.
Qed.

(** Putting an item that was first seen before all sorted ones keeps the
    ranking: it goes in front of the items that do not have a greater
    count. *)
Lemma insert_desc_ranked (callees : list string) (x : string * Z)
    (l : list (string * Z)) :
  StronglySorted (ranks_before callees) l →
  Forall (λ y, first_seen x.1 callees < first_seen y.1 callees)%nat l →
  StronglySorted (ranks_before callees) (insert_desc x l).
Proof.
  intros Hsorted Hfirst. induction Hsorted as [|y l Hl IH Hy]; simpl.
  { repeat constructor. }
  apply Forall_cons in Hfirst as [Hxy Hfirst].
  rewrite Forall_forall in Hy, Hfirst.
  destruct (y.2 <=? x.2) eqn:Hle.
  - apply Z.leb_le in Hle. constructor; [by constructor; [|apply Forall_forall]|].
    constructor.
    + unfold ranks_before. destruct (decide (y.2 = x.2)); [right|left]; [done|lia].
    + apply Forall_forall. intros z Hz. specialize (Hy z Hz).
      specialize (Hfirst z Hz). unfold ranks_before in *.
      destruct (decide (z.2 = x.2)); [right|left]; [done|lia].
  - apply Z.leb_gt in Hle. constructor; [by apply IH, Forall_forall|].
    apply Forall_forall. intros z Hz. rewrite insert_desc_perm in Hz.
    apply elem_of_cons in Hz as [->|Hz]; [by left|by apply Hy].
Qed.

Lemma sorted_by_count_desc_ranked (callees : list string)
    (items : list (string * Z)) :
  StronglySorted (λ x y, first_seen x.1 callees < first_seen y.1 callees)%nat items →
  StronglySorted (ranks_before callees) (sorted_by_count_desc items).
Proof.
  induction 1 as [|x items Hitems IH Hx]; [constructor|].
  cbn [sorted_by_count_desc foldr]. apply insert_desc_ranked; [exact IH|].
  rewrite Forall_forall in *. intros y Hy. apply Hx.
  pose proof (sorted_by_count_desc_perm items) as Hperm.
  unfold sorted_by_count_desc in Hperm. by rewrite Hperm in Hy.
Qed.

(** C4: [_get_most_called 5] lists at most five pairs of a callee and the
    number of edges that name it, each callee once, ranked by [ranks_before]:
    greater counts first and, at equal counts, the callee first seen earlier
    in the edge sequence first.  A callee that is left out ranks after all
    five listed.  For edges to [x], [x] and [y] the list is
    [[(x, 2); (y, 1)]], and for edges to [x] and [y] it is
    [[(x, 1); (y, 1)]].  This list is the [most_called] entry of the
    statistics of every edge list that is not empty. *)
Theorem most_called_top_five (self : RelationshipDetector) :
  let callees := callee <$> relationships self in
  let top := _get_most_called self 5 in
  (length top ≤ 5)%nat
  ∧ (∀ c n, (c, n) ∈ top → c ∈ callees ∧ n = occurrences c callees ∧ 1 ≤ n)
  ∧ NoDup top.*1
  ∧ StronglySorted (ranks_before callees) top
  ∧ (∀ c, c ∈ callees → c ∉ top.*1 →
       length top = 5%nat
       ∧ ∀ x, x ∈ top → ranks_before callees x (c, occurrences c callees))
  ∧ (∀ a b c x y la lb lc ta tb tc, x ≠ y →
       relationships self = [Edge a x la ta; Edge b x lb tb; Edge c y lc tc] →
       top = [(x, 2); (y, 1)])
  ∧ (∀ a b x y la lb ta tb, x ≠ y →
       relationships self = [Edge a x la ta; Edge b y lb tb] →
       top = [(x, 1); (y, 1)])
  ∧ (relationships self ≠ [] → most_called (_calculate_stats self) = Some top).
Proof.
  intros callees top.
  set (d := foldl (λ d c, count_up c d) [] callees).
  set (ranked := sorted_by_count_desc d).
  assert (Htop : top = take 5 ranked).
  { unfold top, _get_most_called, slice_to, ranked, d, callees.
    by rewrite foldl_fmap. }
  destruct (count_up_loop_spec callees) as (Hval & Hkey & Hdup & Hsort).
  fold d in Hval, Hkey, Hdup, Hsort.
  assert (Hperm : ranked ≡ₚ d) by apply sorted_by_count_desc_perm.
  assert (Hranked : StronglySorted (ranks_before callees) ranked)
    by by apply sorted_by_count_desc_ranked.
  assert (Hsplit : ranked = top ++ drop 5 ranked)
    by by rewrite Htop, take_drop.
  split_and!.
  - rewrite Htop, length_take. lia.
  - intros c n Hc. assert ((c, n) ∈ d) as [? ->]%Hval.
    { rewrite <-Hperm, Hsplit. apply elem_of_app. by left. }
    split; [done|]. split; [done|]. by apply occurrences_pos.
  - apply (sublist_NoDup _ (ranked.*1)); [by rewrite Hperm|].
    rewrite Htop, fmap_take. apply sublist_take.
  - rewrite Hsplit in Hranked. by apply StronglySorted_app_1_l in Hranked.
  - intros c Hc Hnot.
    assert (Hrest : (c, occurrences c callees) ∈ drop 5 ranked).
    { apply Hkey in Hc. rewrite <-Hperm, Hsplit in Hc.
      apply elem_of_app in Hc as [Hc|Hc]; [|done].
      destruct Hnot. apply list_elem_of_fmap. by exists (c, occurrences c callees). }
    split.
    + rewrite Htop. apply length_take_le.
      destruct (decide (5 ≤ length ranked)%nat); [done|].
      rewrite drop_ge in Hrest by lia. by apply elem_of_nil in Hrest.
    + intros x Hx. rewrite Hsplit in Hranked.
      by eapply StronglySorted_app_1_elem_of.
  - intros a b c x y la lb lc ta tb tc Hxy Hrels.
    unfold top, _get_most_called. rewrite Hrels. simpl.
    repeat (first [rewrite decide_True by done|rewrite decide_False by done]; simpl).
    done.
  - intros a b x y la lb ta tb Hxy Hrels.
    unfold top, _get_most_called. rewrite Hrels. simpl.
    repeat (first [rewrite decide_True by done|rewrite decide_False by done]; simpl).
    done.
  - unfold top, _calculate_stats. by destruct (relationships self).
Qed.

Lemma most_called_top_five_witness :
  _get_most_called
    (Detector [Edge (Some "f") "x" 2 function_call;
               Edge (Some "f") "x" 3 method_call;
               Edge (Some "g") "y" 5 function_call] ∅ (Some "g")) 5
  = [("x", 2); ("y", 1)].
Proof.
  destruct (most_called_top_five
              (Detector [Edge (Some "f") "x" 2 function_call;
                         Edge (Some "f") "x" 3 method_call;
                         Edge (Some "g") "y" 5 function_call] ∅ (Some "g")))
    as (_ & _ & _ & _ & _ & Hexample & _ & _).
  by eapply Hexample.
Defined.

(** *** The edge sequence *)

(** C1, as the code has it: the edge sequence lists, for each function
    definition (synchronous or asynchronous) in the breadth-first order of
    [walk] over the whole tree, one edge for every call with a name or an
    attribute target in the subtree of that definition, in the order of
    [walk] over the subtree, with that definition as caller.  A call
    therefore yields one edge for each function definition around it: the
    number of edges is the number of such calls, each counted as many times
    as it has function definitions around it. *)
Theorem edges_once_per_enclosing_function
    (parse : string → SyntaxError + node) (self : RelationshipDetector)
    (code : string) (tree : node) :
  parse code = inr tree →
  ∃ r self',
    detect_relationships parse self code = Ok (r, self')
    ∧ det_relationships r = walk tree ≫= function_edges
    ∧ length (det_relationships r) = edge_multiplicity tree 0.
Proof.
  intros Hparse.
  destruct (detect_relationships_parsed _ self _ _ Hparse) as (fc & cf & ->).
  eexists _, _. split; [done|]. split; [done|]. cbn [det_relationships].
  rewrite edge_multiplicity_spec. cbn [Nat.mul Nat.add].
  apply Permutation_length. by rewrite walk_preorder.
Qed.

Lemma edges_once_per_enclosing_function_witness :
  ∃ r self',
    detect_relationships (parse_only nested_source nested_tree) init
      nested_source = Ok (r, self')
    ∧ det_relationships r = walk nested_tree ≫= function_edges
    ∧ length (det_relationships r) = edge_multiplicity nested_tree 0.
Proof.
  apply (edges_once_per_enclosing_function
           (parse_only nested_source nested_tree) init nested_source
           nested_tree).
  reflexivity.
Defined.

(** The one call of [nested_source] lies in [g], itself in [f]: the
    detector returns two edges for it, the first with caller [f], where one
    pre-order pass with the innermost definition as caller has one.  In
    [branch_source] the detector lists the call of [b] before the call of
    [a], which a pre-order pass meets first. *)
Lemma edges_not_one_preorder_pass :
  (∃ r self',
     detect_relationships (parse_only nested_source nested_tree) init
       nested_source = Ok (r, self')
     ∧ det_relationships r =
         [Edge (Some "f") "h" 3 function_call; Edge (Some "g") "h" 3 function_call]
     ∧ preorder_edges nested_tree None = [Edge (Some "g") "h" 3 function_call]
     ∧ det_relationships r ≠ preorder_edges nested_tree None)
  ∧ (∃ r self',
       detect_relationships (parse_only branch_source branch_tree) init
         branch_source = Ok (r, self')
       ∧ det_relationships r =
           [Edge (Some "f") "b" 4 function_call; Edge (Some "f") "a" 3 function_call]
       ∧ preorder_edges branch_tree None =
           [Edge (Some "f") "a" 3 function_call; Edge (Some "f") "b" 4 function_call]
       ∧ det_relationships r ≠ preorder_edges branch_tree None).
Proof.
  split; eexists _, _; (split; [vm_compute; reflexivity|]); by vm_compute.
Qed.

(** C2, as the code has it: calls are looked for in the subtrees of
    function definitions only.  Every edge is the edge of a call in the
    subtree of a function definition of the tree and has the name of that
    definition as caller, never the absent caller; a call at module scope
    yields no edge of its own, and a unit without function definitions
    yields no edge at all.  Nothing is raised. *)
Theorem edges_only_inside_function_definitions
    (parse : string → SyntaxError + node) (self : RelationshipDetector)
    (code : string) (tree : node) :
  parse code = inr tree →
  ∃ r self',
    detect_relationships parse self code = Ok (r, self')
    ∧ (∀ e, e ∈ det_relationships r →
         caller e ≠ None
         ∧ ∃ f call, f ∈ preorder tree ∧ is_function_def f = true
                     ∧ call ∈ preorder f
                     ∧ e ∈ call_edge (Some (node_name f)) call)
    ∧ ((∀ n, n ∈ preorder tree → is_function_def n = false) →
       det_relationships r = []).
Proof.
  intros Hparse.
  destruct (detect_relationships_parsed _ self _ _ Hparse) as (fc & cf & ->).
  eexists _, _. split; [done|]. cbn [det_relationships]. split.
  - intros e He. apply elem_of_function_edges in He as (f & call & ? & ? & ? & He).
    split; [|by eauto 10].
    apply elem_of_call_edge in He as (-> & _). done.
  - intros Hnone. apply elem_of_nil_inv. intros e He.
    apply elem_of_function_edges in He as (f & _ & Hf & Hdef & _).
    rewrite (Hnone f Hf) in Hdef. done.
Qed.

Lemma edges_only_inside_function_definitions_witness :
  ∃ r self',
    detect_relationships (parse_only toplevel_source toplevel_tree) init
      toplevel_source = Ok (r, self')
    ∧ det_relationships r = [].
Proof.
  destruct (edges_only_inside_function_definitions
              (parse_only toplevel_source toplevel_tree) init toplevel_source
              toplevel_tree)
    as (r & self' & Hrun & _ & Hnone); [reflexivity|].
  exists r, self'. split; [exact Hrun|]. apply Hnone.
  intros n Hn. vm_compute in Hn.
  repeat (apply elem_of_cons in Hn as [->|Hn]; [reflexivity|]).
  by apply elem_of_nil in Hn.
Defined.

(** [main()] at module scope is a call of the tree, for which one pre-order
    pass has an edge without caller; the detector returns no edge. *)
Lemma module_level_call_has_no_edge :
  ∃ self',
    detect_relationships (parse_only toplevel_source toplevel_tree) init
      toplevel_source =
      Ok (Detection [] (Stats (Some 0) (Some 0) (Some 0) None None), self')
    ∧ Call 1 (Name 1 "main") [] [] ∈ preorder toplevel_tree
    ∧ preorder_edges toplevel_tree None = [Edge None "main" 1 function_call].
Proof.
  eexists. split; [vm_compute; reflexivity|]. split; [|by vm_compute].
  vm_compute. repeat constructor.
Qed.

(** C3, as the code has it: on text that does not parse the call raises
    nothing and returns no edges and the empty dictionary as statistics:
    no count is present. *)
Theorem malformed_source_gives_empty_stats
    (parse : string → SyntaxError + node) (self : RelationshipDetector)
    (code : string) (e : SyntaxError) :
  parse code = inl e →
  ∃ self',
    detect_relationships parse self code = Ok (Detection [] no_stats, self')
    ∧ relationships self' = []
    ∧ no_stats = Stats None None None None None.
Proof.
  intros Hparse. rewrite (detect_relationships_malformed _ _ _ _ Hparse). eauto.
Qed.

Lemma malformed_source_gives_empty_stats_witness :
  ∃ self',
    detect_relationships (parse_only nested_source nested_tree) init "def f(:" =
      Ok (Detection [] no_stats, self')
    ∧ relationships self' = []
    ∧ no_stats = Stats None None None None None.
Proof.
  apply (malformed_source_gives_empty_stats
           (parse_only nested_source nested_tree) init "def f(:"
           {| msg := "invalid syntax"; err_lineno := Some 1; err_offset := Some 1 |}).
  reflexivity.
Defined.

(** On malformed text the counts are absent, not zero. *)
Lemma malformed_source_counts_absent :
  ∃ r self',
    detect_relationships (parse_only nested_source nested_tree) init "def f(:" =
      Ok (r, self')
    ∧ total_calls (det_stats r) = None
    ∧ unique_callers (det_stats r) = None
    ∧ unique_callees (det_stats r) = None
    ∧ total_calls (det_stats r) ≠ Some 0.
Proof. eexists _, _. split; [vm_compute; reflexivity|]. done. Qed.

(** C8: a second call on the same instance returns what a new instance
    returns for the second text; no edge of the first text is left. *)
Theorem reused_detector_matches_fresh
    (parse : string → SyntaxError + node) (self : RelationshipDetector)
    (first second : string) :
  ∃ r1 self1 r2 self2 self3,
    detect_relationships parse self first = Ok (r1, self1)
    ∧ detect_relationships parse self1 second = Ok (r2, self2)
    ∧ detect_relationships parse init second = Ok (r2, self3)
    ∧ relationships self2 = det_relationships r2.
Proof.
  destruct (detect_relationships_result parse self first) as (self1 & H1 & _).
  destruct (detect_relationships_result parse self1 second) as (self2 & H2 & ?).
  destruct (detect_relationships_result parse init second) as (self3 & H3 & _).
  eauto 10.
Qed.

End RelationshipsFacts.

(** ** The structure extractor *)

Module ExtractorFacts.
Import Ast AstFacts Extractor.

Section Facts.
Variable read_file : string → read_error + string.
Variable parse : string → SyntaxError + node.
Variable unparse : node → string.
Variable get_docstring : node → option string.

Local Abbreviation extract_from_file :=
  (Extractor.extract_from_file read_file parse unparse get_docstring).
Local Abbreviation walk_tree_step :=
  (Extractor.walk_tree_step unparse get_docstring).
Local Abbreviation class_entries :=
  (Extractor.class_entries unparse get_docstring).

Lemma extract_from_file_unreadable (self : CodeExtractor) (path : string)
    (e : read_error) :
  read_file path = inl e →
  extract_from_file self path =
    (entities self, self, [error_reading_file path e]).
Proof. intros Hread. unfold Extractor.extract_from_file. by rewrite Hread. Qed.

Lemma extract_from_file_malformed (self : CodeExtractor) (path code : string)
    (e : SyntaxError) :
  read_file path = inr code → parse code = inl e →
  extract_from_file self path =
    (entities (fresh path code), fresh path code, [syntax_error_in path e]).
Proof.
  intros Hread Hparse. unfold Extractor.extract_from_file.
  by rewrite Hread, Hparse.
Qed.

Lemma extract_from_file_parsed (self : CodeExtractor) (path code : string)
    (tree : node) :
  read_file path = inr code → parse code = inr tree →
  extract_from_file self path =
    (entities (foldl walk_tree_step (fresh path code) (walk tree)),
     foldl walk_tree_step (fresh path code) (walk tree), []).
Proof.
  intros Hread Hparse. unfold Extractor.extract_from_file.
  by rewrite Hread, Hparse.
Qed.

Lemma walk_tree_step_classes (self : CodeExtractor) (n : node) :
  classes (entities (walk_tree_step self n)) =
  classes (entities self) ++ class_entries n.
Proof. destruct n; simpl; by rewrite ?app_nil_r. Qed.

Lemma walk_tree_loop_classes (l : list node) (self : CodeExtractor) :
  classes (entities (foldl walk_tree_step self l)) =
  classes (entities self) ++ (l ≫= class_entries).
Proof.
  revert self. induction l as [|n l IH]; intros self; simpl.
  - by rewrite app_nil_r.
  - rewrite IH, walk_tree_step_classes. by rewrite <-(assoc_L (++)).
Qed.

(** Walking the tree leaves [file_path] and [total_lines] as they were. *)
Lemma walk_tree_loop_header (l : list node) (self : CodeExtractor) :
  file_path (entities (foldl walk_tree_step self l)) = file_path (entities self)
  ∧ total_lines (entities (foldl walk_tree_step self l))
    = total_lines (entities self).
Proof.
  revert self. induction l as [|n l IH]; intros self; [done|].
  cbn [foldl]. destruct (IH (walk_tree_step self n)) as [-> ->].
  by destruct n.
Qed.

Lemma elem_of_class_entries (c : ClassEntity) (n : node) :
  c ∈ class_entries n ↔
  ∃ name lineno bases keywords body decorator_list type_params,
    n = ClassDef name lineno bases keywords body decorator_list type_params
    ∧ c = {| class_name := name;
             class_line := lineno;
             methods := node_name <$> filter (λ n, is_FunctionDef n = true) body;
             method_count :=
               Z.of_nat (length (node_name <$> filter (λ n, is_FunctionDef n = true) body));
             bases := match unparse <$> bases with
                      | [] => ["object"]
                      | _ => unparse <$> bases
                      end;
             class_docstring := default "" (get_docstring n) |}.
Proof.
  split.
  - destruct n; cbn; try by intros ?%elem_of_nil.
    intros ->%list_elem_of_singleton. eauto 10.
  - intros (? & ? & ? & ? & ? & ? & ? & -> & ->). cbn. left.
Qed.

(** After a readable file that parses, the class entries are those of the
    class-definition nodes of the tree, in the order of [walk]. *)
Lemma extract_from_file_classes (self : CodeExtractor) (path code : string)
    (tree : node) :
  read_file path = inr code → parse code = inr tree →
  classes (extract_from_file self path).1.1 = walk tree ≫= class_entries.
Proof.
  intros Hread Hparse. rewrite (extract_from_file_parsed _ _ _ _ Hread Hparse).
  cbn [fst]. by rewrite walk_tree_loop_classes.
Qed.

(** C5, as the code has it: the method list of a class entry names exactly
    the [FunctionDef] nodes, the [def] statements, that are elements of the
    body of its class definition, in body order; an [async def] of the body
    is an [AsyncFunctionDef] node and is not listed.  Every
    class-definition node of the tree has such an entry and every entry
    stems from such a node; a name is in the list only if a [def]
    statement of that name is a direct element of the body, so
    the methods of a class nested in the body are not in it: a class whose
    body holds the definitions of [a] and [b] and a nested class yields
    the method list [[a; b]], whatever the nested class declares. *)
Theorem class_methods_are_direct_body (self : CodeExtractor)
    (path code : string) (tree : node) :
  read_file path = inr code → parse code = inr tree →
  let found := classes (extract_from_file self path).1.1 in
  (∀ name lineno bases keywords body decorator_list type_params,
     ClassDef name lineno bases keywords body decorator_list type_params
       ∈ preorder tree →
     ∃ c, c ∈ found ∧ class_name c = name ∧ class_line c = lineno
          ∧ methods c = node_name <$> filter (λ n, is_FunctionDef n = true) body)
  ∧ (∀ c, c ∈ found →
     ∃ name lineno bases keywords body decorator_list type_params,
       ClassDef name lineno bases keywords body decorator_list type_params
         ∈ preorder tree
       ∧ class_name c = name ∧ class_line c = lineno
       ∧ methods c = node_name <$> filter (λ n, is_FunctionDef n = true) body
       ∧ ∀ m, m ∈ methods c ↔
              ∃ f, f ∈ body ∧ is_FunctionDef f = true ∧ node_name f = m)
  ∧ (∀ outer lineno bases keywords decorator_list type_params def_a def_b
       inner inner_lineno inner_bases inner_keywords inner_body
       inner_decorator_list inner_type_params,
     is_FunctionDef def_a = true → is_FunctionDef def_b = true →
     ClassDef outer lineno bases keywords
       [def_a; def_b;
        ClassDef inner inner_lineno inner_bases inner_keywords inner_body
          inner_decorator_list inner_type_params]
       decorator_list type_params ∈ preorder tree →
     ∃ c, c ∈ found ∧ class_name c = outer
          ∧ methods c = [node_name def_a; node_name def_b]).
Proof.
  intros Hread Hparse found.
  assert (Hfound : found = walk tree ≫= class_entries)
    by by apply (extract_from_file_classes self path code).
  assert (Hin : ∀ name lineno bases keywords body decorator_list type_params,
     ClassDef name lineno bases keywords body decorator_list type_params
       ∈ preorder tree →
     ∃ c, c ∈ found ∧ class_name c = name ∧ class_line c = lineno
          ∧ methods c = node_name <$> filter (λ n, is_FunctionDef n = true) body).
  { intros name lineno bases keywords body decorator_list type_params Hnode.
    eexists. split.
    - rewrite Hfound. apply list_elem_of_bind. eexists. split.
      + apply elem_of_class_entries. eauto 10.
      + by rewrite walk_preorder.
    - done. }
  split; [exact Hin|]. split.
  - intros c Hc. rewrite Hfound in Hc.
    apply list_elem_of_bind in Hc as (n & Hc & Hn).
    rewrite walk_preorder in Hn.
    apply elem_of_class_entries in Hc
      as (name & lineno & bases & keywords & body & decs & tps & -> & ->).
    exists name, lineno, bases, keywords, body, decs, tps.
    split; [done|]. cbn. split; [done|]. split; [done|]. split; [done|].
    intros m. rewrite list_elem_of_fmap. split.
    + intros (f & -> & Hf). apply list_elem_of_filter in Hf as [Hdef Hf]. eauto.
    + intros (f & Hf & Hdef & <-). exists f. split; [done|].
      by apply list_elem_of_filter.
  - intros outer lineno bases keywords decs tps def_a def_b inner il ib ik ibody
      idecs itps Ha Hb Hnode.
    destruct (Hin _ _ _ _ _ _ _ Hnode) as (c & Hc & Hname & _ & Hmethods).
    exists c. split; [done|]. split; [done|]. rewrite Hmethods.
    rewrite !filter_cons, Ha, Hb. simpl.
    repeat case_decide; done.
Qed.

(** C6: when the file reads but does not parse, [extract_from_file] returns
    a value (it raises nothing): the entities of the file with every
    collection empty, and it prints one message that carries the
    [SyntaxError], with the position the parser gave it; the text is parsed
    once and nothing is extracted. *)
Theorem extract_malformed_fails_soft (self : CodeExtractor)
    (path code : string) (e : SyntaxError) :
  read_file path = inr code → parse code = inl e →
  ∃ found self',
    extract_from_file self path = (found, self', [syntax_error_in path e])
    ∧ entities self' = found
    ∧ classes found = [] ∧ functions found = [] ∧ imports found = []
    ∧ decorators found = []
    ∧ file_path found = Some path
    ∧ total_lines found = Some (Z.of_nat (length (split "010"%char code))).
Proof.
  intros Hread Hparse. eexists _, _.
  rewrite (extract_from_file_malformed _ _ _ _ Hread Hparse). done.
Qed.

(** C10: when the read raises, [extract_from_file] returns the entities
    the instance holds, unchanged, and prints the error.  After a call that
    read the file [previous], a call on the unreadable file [failed]
    therefore returns the complete result for [previous], not an empty
    result for [failed]; [extract_from_directory] then lists the entities of
    [previous] twice. *)
Theorem read_failure_returns_held_entities (self : CodeExtractor)
    (previous failed code : string) (e : read_error) :
  read_file previous = inr code → read_file failed = inl e →
  (∀ held, extract_from_file held failed =
             (entities held, held, [error_reading_file failed e]))
  ∧ ∃ first self1 out1,
      extract_from_file self previous = (first, self1, out1)
      ∧ file_path first = Some previous
      ∧ extract_from_file self1 failed =
          (first, self1, [error_reading_file failed e])
      ∧ ∀ (rglob : string → list string) (dir_path : string),
          rglob dir_path = [previous; failed] →
          contains "__pycache__" previous = false →
          contains "__pycache__" failed = false →
          ∃ all_entities,
            extract_from_directory read_file parse unparse get_docstring rglob
              self dir_path =
              (all_entities, self1, out1 ++ [error_reading_file failed e])
            ∧ files all_entities = [first; first]
            ∧ all_classes all_entities = classes first ++ classes first
            ∧ all_functions all_entities = functions first ++ functions first
            ∧ all_imports all_entities = imports first ++ imports first.
Proof.
  intros Hread Hfail.
  assert (Hheld : ∀ held, extract_from_file held failed =
             (entities held, held, [error_reading_file failed e])).
  { intros held. by apply extract_from_file_unreadable. }
  split; [done|].
  destruct (extract_from_file self previous) as [[first self1] out1] eqn:Hfirst.
  assert (entities self1 = first ∧ file_path first = Some previous) as [Hent Hpath].
  { unfold Extractor.extract_from_file in Hfirst. rewrite Hread in Hfirst.
    destruct (parse code) as [err|tree]; simplify_eq; [done|].
    split; [done|].
    exact (proj1 (walk_tree_loop_header (walk tree) (fresh previous code))). }
  exists first, self1, out1. split; [done|]. split; [done|].
  split; [by rewrite Hheld, Hent|].
  intros rglob dir_path Hglob Hp Hf. eexists. split.
  - unfold extract_from_directory. rewrite Hglob. cbn [foldl].
    unfold extract_directory_step at 2. rewrite Hp, Hfirst. cbn [negb].
    unfold extract_directory_step. rewrite Hf, Hheld, Hent. reflexivity.
  - done.
Qed.

End Facts.

Lemma class_methods_are_direct_body_witness :
  ∃ c, c ∈ classes
             (extract_from_file (read_only "outer.py" outer_source)
                (parse_only outer_source outer_tree) unparse_none
                get_docstring_none init "outer.py").1.1
       ∧ class_name c = "Outer" ∧ methods c = ["a"; "b"].
Proof.
  destruct (class_methods_are_direct_body (read_only "outer.py" outer_source)
              (parse_only outer_source outer_tree) unparse_none
              get_docstring_none init "outer.py" outer_source outer_tree)
    as (_ & _ & Hexample); [reflexivity..|].
  apply (Hexample "Outer" 1 [] [] [] []
           (FunctionDef "a" 2 ["self"] (Other [Other []]) [Other []] [] [])
           (FunctionDef "b" 3 ["self"] (Other [Other []]) [Other []] [] [])
           "Inner" 4 [] []
           [FunctionDef "c" 5 ["self"] (Other [Other []]) [Other []] [] []]
           [] []); [reflexivity..|].
  vm_compute. repeat constructor.
Defined.

(** The body of [Service] holds two function definitions, [async def m]
    and [def n]; the method list has [n] only. *)
Lemma async_method_is_not_listed :
  ∃ c,
    classes
      (extract_from_file (read_only "service.py" async_source)
         (parse_only async_source async_tree) unparse_none get_docstring_none
         init "service.py").1.1 = [c]
    ∧ class_name c = "Service"
    ∧ methods c = ["n"]
    ∧ node_name <$>
        filter (λ n, is_function_def n = true)
          [AsyncFunctionDef "m" 2 ["self"] (Other [Other []]) [Other []] [] [];
           FunctionDef "n" 3 ["self"] (Other [Other []]) [Other []] [] []]
      = ["m"; "n"]
    ∧ methods c ≠ ["m"; "n"].
Proof. eexists. split; [vm_compute; reflexivity|]. by vm_compute. Qed.

Lemma extract_malformed_fails_soft_witness :
  ∃ found self',
    extract_from_file (read_only "bad.py" "def f(:")
      (parse_only outer_source outer_tree) unparse_none get_docstring_none
      init "bad.py" =
      (found, self',
       [syntax_error_in "bad.py"
          {| msg := "invalid syntax"; err_lineno := Some 1; err_offset := Some 1 |}])
    ∧ entities self' = found
    ∧ classes found = [] ∧ functions found = [] ∧ imports found = []
    ∧ decorators found = []
    ∧ file_path found = Some "bad.py"
    ∧ total_lines found = Some (Z.of_nat (length (split "010"%char "def f(:"))).
Proof.
  apply (extract_malformed_fails_soft (read_only "bad.py" "def f(:")
           (parse_only outer_source outer_tree) unparse_none get_docstring_none
           init "bad.py" "def f(:"); reflexivity.
Defined.

Lemma read_failure_returns_held_entities_witness :
  ∃ first self1 out1,
    extract_from_file (read_only "outer.py" outer_source)
      (parse_only outer_source outer_tree) unparse_none get_docstring_none
      init "outer.py" = (first, self1, out1)
    ∧ file_path first = Some "outer.py"
    ∧ extract_from_file (read_only "outer.py" outer_source)
        (parse_only outer_source outer_tree) unparse_none get_docstring_none
        self1 "gone.py" =
        (first, self1,
         [error_reading_file "gone.py" (ReadError "No such file or directory")]).
Proof.
  destruct (read_failure_returns_held_entities
              (read_only "outer.py" outer_source)
              (parse_only outer_source outer_tree) unparse_none
              get_docstring_none init "outer.py" "gone.py" outer_source
              (ReadError "No such file or directory"))
    as (_ & first & self1 & out1 & Hfirst & Hpath & Hfailed & _);
    [reflexivity..|].
  exists first, self1, out1. by rewrite Hfirst, Hfailed.
Defined.

End ExtractorFacts.
(** ** Both analysers on one text *)

Module AnalyzerFacts.
Import Ast AstFacts.

(** C7: what the two analysers return for a text does not depend on the
    instance they are called on, hence not on earlier calls: two calls of
    [extract_from_file] on a file with the same text return the same
    entities (and print the same), and two calls of [detect_relationships]
    on the same text return the same edges and statistics, in the same
    order. *)
Theorem analysers_deterministic
    (read_file : string → Extractor.read_error + string)
    (parse : string → SyntaxError + node) (unparse : node → string)
    (get_docstring : node → option string)
    (extractor1 extractor2 : Extractor.CodeExtractor)
    (detector1 detector2 : Relationships.RelationshipDetector)
    (path code : string) :
  read_file path = inr code →
  Extractor.extract_from_file read_file parse unparse get_docstring extractor1 path
  = Extractor.extract_from_file read_file parse unparse get_docstring extractor2 path
  ∧ ∃ r detector1' detector2',
      Relationships.detect_relationships parse detector1 code = Ok (r, detector1')
      ∧ Relationships.detect_relationships parse detector2 code = Ok (r, detector2').
Proof.
  intros Hread. split.
  - unfold Extractor.extract_from_file. by rewrite Hread.
  - destruct (RelationshipsFacts.detect_relationships_result parse detector1 code)
      as (d1 & H1 & _).
    destruct (RelationshipsFacts.detect_relationships_result parse detector2 code)
      as (d2 & H2 & _).
    eauto.
Qed.

Lemma analysers_deterministic_witness :
  Extractor.extract_from_file
    (Extractor.read_only "nested.py" Relationships.nested_source)
    (parse_only Relationships.nested_source Relationships.nested_tree)
    Extractor.unparse_none Extractor.get_docstring_none Extractor.init "nested.py"
  = Extractor.extract_from_file
      (Extractor.read_only "nested.py" Relationships.nested_source)
      (parse_only Relationships.nested_source Relationships.nested_tree)
      Extractor.unparse_none Extractor.get_docstring_none
      (Extractor.fresh "other.py" "pass") "nested.py".
Proof.
  apply (analysers_deterministic
           (Extractor.read_only "nested.py" Relationships.nested_source)
           (parse_only Relationships.nested_source Relationships.nested_tree)
           Extractor.unparse_none Extractor.get_docstring_none
           Extractor.init (Extractor.fresh "other.py" "pass")
           Relationships.init Relationships.init
           "nested.py" Relationships.nested_source).
  reflexivity.
Defined.




End AnalyzerFacts.

(** ** Counting and ranking, for keys of any type *)

Module RankingFacts.
Import Relationships.

Section Tally.
Context {K : Type} `{EqDecision K}.
Implicit Types (k c : K) (l : list K) (d : list (K * Z)).

Lemma count_of_cons_eq c l : count_of c (c :: l) = 1 + count_of c l.
Proof.
  unfold count_of. rewrite filter_cons, decide_True by done. simpl length. lia.
Qed.

Lemma count_of_cons_ne c x l : x ≠ c → count_of c (x :: l) = count_of c l.
Proof. intros. unfold count_of. by rewrite filter_cons, decide_False. Qed.

Lemma count_of_filter_ne c k l :
  k ≠ c → count_of k (filter (λ x, x ≠ c) l) = count_of k l.
Proof.
  intros Hk. induction l as [|x l IH]; [done|].
  rewrite filter_cons. destruct (decide (x = c)) as [->|Hx].
  - rewrite decide_False by naive_solver.
    rewrite count_of_cons_ne by done. exact IH.
  - rewrite decide_True by done. destruct (decide (x = k)) as [->|Hxk].
    + by rewrite !count_of_cons_eq, IH.
    + by rewrite !count_of_cons_ne, IH.
Qed.

Lemma count_of_pos c l : c ∈ l → 1 ≤ count_of c l.
Proof.
  induction l as [|x l IH]; [by intros ?%elem_of_nil|].
  assert (0 ≤ count_of c l) by (unfold count_of; lia).
  destruct (decide (x = c)) as [->|Hx].
  - rewrite count_of_cons_eq. lia.
  - rewrite count_of_cons_ne by done.
    intros [?|?]%elem_of_cons; [done|auto].
Qed.

Lemma count_of_le_length c l : count_of c l ≤ Z.of_nat (length l).
Proof. unfold count_of. pose proof (length_filter (λ x, x = c) l). lia. Qed.

Lemma first_index_filter_ne c k1 k2 l :
  k1 ≠ c → k2 ≠ c →
  (first_index k1 (filter (λ x, x ≠ c) l) < first_index k2 (filter (λ x, x ≠ c) l))%nat →
  (first_index k1 l < first_index k2 l)%nat.
Proof.
  intros H1 H2. induction l as [|x l IH]; [done|].
  rewrite filter_cons. destruct (decide (x = c)) as [->|Hx].
  - rewrite decide_False by naive_solver. simpl.
    rewrite !decide_False by done. intros ?%IH. lia.
  - rewrite decide_True by done. simpl.
    repeat case_decide; lia.
Qed.

Lemma tally_head k (n : Z) d l :
  foldl (λ d c, count_up c d) ((k, n) :: d) l =
  (k, n + count_of k l)
    :: foldl (λ d c, count_up c d) d (filter (λ x, x ≠ k) l).
Proof.
  revert n d. induction l as [|x l IH]; intros n d.
  - simpl. unfold count_of. simpl. by rewrite Z.add_0_r.
  - cbn [foldl count_up]. rewrite filter_cons.
    destruct (decide (x = k)) as [->|Hx].
    + rewrite decide_False by naive_solver.
      rewrite IH, count_of_cons_eq. do 2 f_equal. lia.
    + rewrite decide_True by done.
      rewrite IH, count_of_cons_ne by done. done.
Qed.

Lemma tally_cons c l :
  tally (c :: l) = (c, count_of c (c :: l)) :: tally (filter (λ x, x ≠ c) l).
Proof.
  unfold tally. cbn [foldl count_up]. by rewrite tally_head, count_of_cons_eq.
Qed.

(** One entry per distinct key, with its number of occurrences, in the
    order in which the keys are first seen. *)
Lemma tally_spec l :
  (∀ k v, (k, v) ∈ tally l → k ∈ l ∧ v = count_of k l)
  ∧ (∀ k, k ∈ l → (k, count_of k l) ∈ tally l)
  ∧ NoDup (tally l).*1
  ∧ StronglySorted (λ x y, first_index x.1 l < first_index y.1 l)%nat (tally l).
Proof.
  remember (length l) as len eqn:Hlen. revert l Hlen.
  induction len as [len IH] using lt_wf_ind. intros [|c l] ->.
  { split_and!; [by intros ?? ?%elem_of_nil|by intros ? ?%elem_of_nil
                 |constructor|constructor]. }
  rewrite tally_cons.
  destruct (IH (length (filter (λ x, x ≠ c) l))) with (l := filter (λ x, x ≠ c) l)
    as (Hval & Hkey & Hdup & Hsort); [|done|].
  { simpl. pose proof (length_filter (λ x, x ≠ c) l). lia. }
  assert (Hne : ∀ k v,
    (k, v) ∈ tally (filter (λ x, x ≠ c) l) →
    k ≠ c ∧ k ∈ l ∧ v = count_of k (c :: l)).
  { intros k v [Hk ->]%Hval. apply list_elem_of_filter in Hk as [Hk ?].
    by rewrite count_of_filter_ne, count_of_cons_ne. }
  split_and!.
  - intros k v [[= -> ->]|Hk]%elem_of_cons; [split; [left|done]|].
    apply Hne in Hk as (? & ? & ?). split; [by right|done].
  - intros k Hk. destruct (decide (k = c)) as [->|Hkc]; [left|].
    right. apply elem_of_cons in Hk as [?|Hk]; [done|].
    rewrite count_of_cons_ne by done.
    rewrite <-(count_of_filter_ne c) by done.
    apply Hkey. by apply list_elem_of_filter.
  - rewrite fmap_cons. constructor; [|done].
    intros ([k v] & [= <-] & Hk)%list_elem_of_fmap. apply Hne in Hk as (? & _). done.
  - constructor.
    + eapply RelationshipsFacts.StronglySorted_impl_elem; [|exact Hsort].
      intros [k1 v1] [k2 v2] (? & _)%Hne (? & _)%Hne Hlt. simpl in *.
      rewrite !decide_False by done.
      apply ->Nat.succ_lt_mono. by eapply first_index_filter_ne.
    + apply Forall_forall. intros [k v] (? & _)%Hne. simpl.
      rewrite decide_True, decide_False by done. lia.
Qed.

Lemma total_count_cons (x : K * Z) d :
  total_count (x :: d) = x.2 + total_count d.
Proof. done. Qed.

(** Every step of the loop adds one to the sum of the counts. *)
Lemma total_count_count_up k d :
  total_count (count_up k d) = 1 + total_count d.
Proof.
  induction d as [|[k' v] d IH]; [done|].
  cbn [count_up]. case_decide; rewrite !total_count_cons, ?IH; simpl; lia.
Qed.

Lemma total_count_tally l : total_count (tally l) = Z.of_nat (length l).
Proof.
  unfold tally.
  assert (Hgen : ∀ d, total_count (foldl (λ d c, count_up c d) d l)
                      = Z.of_nat (length l) + total_count d).
  { induction l as [|x l IH]; intros d; [simpl; lia|].
    cbn [foldl]. rewrite IH, total_count_count_up. simpl length. lia. }
  rewrite Hgen. change (total_count (@nil (K * Z))) with 0. lia.
Qed.

Lemma total_count_perm (d1 d2 : list (K * Z)) :
  d1 ≡ₚ d2 → total_count d1 = total_count d2.
Proof.
  induction 1 as [| | |]; rewrite ?total_count_cons in *; [done|lia..].
Qed.

Lemma total_count_app (d1 d2 : list (K * Z)) :
  total_count (d1 ++ d2) = total_count d1 + total_count d2.
Proof.
  induction d1 as [|x d1 IH]; [done|].
  cbn [app]. rewrite !total_count_cons. lia.
Qed.

Lemma total_count_nonneg (d : list (K * Z)) :
  (∀ x, x ∈ d → 0 ≤ x.2) → 0 ≤ total_count d.
Proof.
  induction d as [|x d IH]; intros Hpos; [done|].
  rewrite total_count_cons.
  assert (0 ≤ x.2) by (apply Hpos; left).
  assert (0 ≤ total_count d) by (apply IH; intros; apply Hpos; by right).
  lia.
Qed.

(** The stable sort ranks a list that is in first-seen order. *)
Lemma insert_desc_ranked_by_key l (x : K * Z) d :
  StronglySorted (ranked_before l) d →
  Forall (λ y, first_index x.1 l < first_index y.1 l)%nat d →
  StronglySorted (ranked_before l) (insert_desc x d).
Proof.
  intros Hsorted Hfirst. induction Hsorted as [|y d Hd IH Hy]; simpl.
  { repeat constructor. }
  apply Forall_cons in Hfirst as [Hxy Hfirst].
  rewrite Forall_forall in Hy, Hfirst.
  destruct (y.2 <=? x.2) eqn:Hle.
  - apply Z.leb_le in Hle. constructor; [by constructor; [|apply Forall_forall]|].
    constructor.
    + unfold ranked_before. destruct (decide (y.2 = x.2)); [right|left]; [done|lia].
    + apply Forall_forall. intros z Hz. specialize (Hy z Hz).
      specialize (Hfirst z Hz). unfold ranked_before in *.
      destruct (decide (z.2 = x.2)); [right|left]; [done|lia].
  - apply Z.leb_gt in Hle. constructor; [by apply IH, Forall_forall|].
    apply Forall_forall. intros z Hz.
    rewrite RelationshipsFacts.insert_desc_perm in Hz.
    apply elem_of_cons in Hz as [->|Hz]; [by left|by apply Hy].
Qed.

Lemma sorted_by_count_desc_ranked_by_key l (items : list (K * Z)) :
  StronglySorted (λ x y, first_index x.1 l < first_index y.1 l)%nat items →
  StronglySorted (ranked_before l) (sorted_by_count_desc items).
Proof.
  induction 1 as [|x items Hitems IH Hx]; [constructor|].
  cbn [sorted_by_count_desc foldr]. apply insert_desc_ranked_by_key; [exact IH|].
  rewrite Forall_forall in *. intros y Hy. apply Hx.
  pose proof (RelationshipsFacts.sorted_by_count_desc_perm items) as Hperm.
  unfold sorted_by_count_desc in Hperm. by rewrite Hperm in Hy.
Qed.

(** The first [n] of the ranked dictionary of counts of [l]. *)
Lemma ranked_top_spec l (n : nat) :
  let top := take n (sorted_by_count_desc (tally l)) in
  (length top ≤ n)%nat
  ∧ (∀ c v, (c, v) ∈ top → c ∈ l ∧ v = count_of c l ∧ 1 ≤ v)
  ∧ NoDup top.*1
  ∧ StronglySorted (ranked_before l) top
  ∧ (∀ c, c ∈ l → c ∉ top.*1 →
       length top = n ∧ ∀ x, x ∈ top → ranked_before l x (c, count_of c l))
  ∧ length top = (n `min` length (tally l))%nat
  ∧ 0 ≤ total_count top ≤ Z.of_nat (length l)
  ∧ ((length (tally l) ≤ n)%nat → total_count top = Z.of_nat (length l)).
Proof.
  cbv zeta.
  destruct (tally_spec l) as (Hval & Hkey & Hdup & Hsort).
  assert (Hperm : sorted_by_count_desc (tally l) ≡ₚ tally l)
    by apply RelationshipsFacts.sorted_by_count_desc_perm.
  assert (Hranked : StronglySorted (ranked_before l) (sorted_by_count_desc (tally l)))
    by by apply sorted_by_count_desc_ranked_by_key.
  remember (sorted_by_count_desc (tally l)) as ranked eqn:Hr. clear Hr.
  remember (take n ranked) as top eqn:Htop.
  assert (Hsplit : ranked = top ++ drop n ranked) by by rewrite Htop, take_drop.
  assert (Hlen : length ranked = length (tally l)) by by apply Permutation_length.
  assert (Hpos : ∀ x, x ∈ ranked → 1 ≤ x.2).
  { intros [c v] Hx. rewrite Hperm in Hx. apply Hval in Hx as [? ->].
    by apply count_of_pos. }
  assert (Htotal : total_count top + total_count (drop n ranked)
                   = Z.of_nat (length l)).
  { rewrite <-total_count_app, <-Hsplit, (total_count_perm _ _ Hperm).
    apply total_count_tally. }
  split_and!.
  - rewrite Htop, length_take. lia.
  - intros c v Hc. assert ((c, v) ∈ tally l) as [? ->]%Hval.
    { rewrite <-Hperm, Hsplit. apply elem_of_app. by left. }
    split; [done|]. split; [done|]. by apply count_of_pos.
  - apply (sublist_NoDup _ (ranked.*1)); [by rewrite Hperm|].
    rewrite Htop, fmap_take. apply sublist_take.
  - rewrite Hsplit in Hranked. by apply StronglySorted_app_1_l in Hranked.
  - intros c Hc Hnot.
    assert (Hrest : (c, count_of c l) ∈ drop n ranked).
    { apply Hkey in Hc. rewrite <-Hperm, Hsplit in Hc.
      apply elem_of_app in Hc as [Hc|Hc]; [|done].
      destruct Hnot. apply list_elem_of_fmap. by exists (c, count_of c l). }
    split.
    + rewrite Htop. apply length_take_le.
      destruct (decide (n ≤ length ranked)%nat); [done|].
      rewrite drop_ge in Hrest by lia. by apply elem_of_nil in Hrest.
    + intros x Hx. rewrite Hsplit in Hranked.
      by eapply StronglySorted_app_1_elem_of.
  - rewrite Htop, length_take. lia.
  - apply total_count_nonneg. intros x Hx.
    assert (1 ≤ x.2); [|lia]. apply Hpos. rewrite Hsplit. apply elem_of_app. by left.
  - assert (0 ≤ total_count (drop n ranked)); [|lia].
    apply total_count_nonneg. intros x Hx.
    assert (1 ≤ x.2); [|lia]. apply Hpos. rewrite Hsplit. apply elem_of_app. by right.
  - intros Hfew. rewrite drop_ge in Htotal by lia.
    change (total_count (@nil (K * Z))) with 0 in Htotal. lia.
Qed.

End Tally.

End RankingFacts.

(** ** Statistics and the [function_calls] dictionary *)

Module StatisticsFacts.
Import Ast AstFacts Relationships RelationshipsFacts RankingFacts.

Lemma length_le_total_count {K : Type} (d : list (K * Z)) :
  (∀ x, x ∈ d → 1 ≤ x.2) → Z.of_nat (length d) ≤ total_count d.
Proof.
  induction d as [|x d IH]; intros Hpos; [done|].
  rewrite total_count_cons. simpl length.
  assert (1 ≤ x.2) by (apply Hpos; left).
  assert (Z.of_nat (length d) ≤ total_count d)
    by (apply IH; intros; apply Hpos; by right).
  lia.
Qed.

(** The number of distinct keys of a list, as [len(set(...))] computes it,
    is the number of entries of its dictionary of counts. *)
Lemma size_list_to_set_tally {K : Type} `{Countable K} (l : list K) :
  size (list_to_set l : gset K) = length (tally l).
Proof.
  destruct (tally_spec l) as (Hval & Hkey & Hdup & _).
  rewrite <-(length_fmap fst (tally l)), <-(size_list_to_set (C:=gset K)) by done.
  f_equal. apply set_eq. intros k. rewrite !elem_of_list_to_set. split.
  - intros Hk. apply list_elem_of_fmap. exists (k, count_of k l). split; [done|auto].
  - intros ([k' v] & -> & Hk)%list_elem_of_fmap. by apply Hval in Hk as [? _].
Qed.

Lemma tally_length_bounds {K : Type} `{EqDecision K} (l : list K) :
  l ≠ [] → (1 ≤ length (tally l) ≤ length l)%nat.
Proof.
  intros Hl. destruct (tally_spec l) as (Hval & Hkey & _ & _). split.
  - destruct l as [|k l]; [done|].
    assert ((k, count_of k (k :: l)) ∈ tally (k :: l)) as Hin by (apply Hkey; left).
    destruct (tally (k :: l)); [by apply elem_of_nil in Hin|simpl; lia].
  - assert (Z.of_nat (length (tally l)) ≤ total_count (tally l)).
    { apply length_le_total_count. intros [k v] [? ->]%Hval. by apply count_of_pos. }
    rewrite total_count_tally in *. lia.
Qed.

Lemma _get_most_called_ranked (self : RelationshipDetector) :
  _get_most_called self 5
  = take 5 (sorted_by_count_desc (tally (callee <$> relationships self))).
Proof. unfold _get_most_called, slice_to, tally. by rewrite foldl_fmap. Qed.

Lemma _get_most_calls_from_ranked (self : RelationshipDetector) :
  _get_most_calls_from self 5
  = take 5 (sorted_by_count_desc (tally (caller <$> relationships self))).
Proof. unfold _get_most_calls_from, slice_to, tally. by rewrite foldl_fmap. Qed.

(** X1: [_get_most_calls_from 5] lists at most five pairs of a caller and the
    number of edges it has, each caller once, ranked by count, greater
    counts first and callers first seen earlier first at equal counts; a
    caller that is left out ranks after all five listed.  It is the
    [most_calls_from] entry of the statistics of every edge list that is
    not empty. *)
Theorem most_calls_from_top_five (self : RelationshipDetector) :
  let callers := caller <$> relationships self in
  let top := _get_most_calls_from self 5 in
  (length top ≤ 5)%nat
  ∧ (∀ c n, (c, n) ∈ top → c ∈ callers ∧ n = count_of c callers ∧ 1 ≤ n)
  ∧ NoDup top.*1
  ∧ StronglySorted (ranked_before callers) top
  ∧ (∀ c, c ∈ callers → c ∉ top.*1 →
       length top = 5%nat
       ∧ ∀ x, x ∈ top → ranked_before callers x (c, count_of c callers))
  ∧ (relationships self ≠ [] →
       most_calls_from (_calculate_stats self) = Some top).
Proof.
  intros callers top.
  assert (Htop : top = take 5 (sorted_by_count_desc (tally callers)))
    by apply _get_most_calls_from_ranked.
  destruct (ranked_top_spec callers 5) as (H1 & H2 & H3 & H4 & H5 & _).
  rewrite <-Htop in *. split_and!; try done.
  unfold top, _calculate_stats. by destruct (relationships self).
Qed.

(** X2: the counts of a call that found edges agree with each other:
    [total_calls] is the number of edges; [unique_callers] and
    [unique_callees] lie between 1 and [total_calls]; [most_called] and
    [most_calls_from] have as many entries as there are distinct callees and
    callers, up to five; the counts listed in either add up to at most
    [total_calls], and to [total_calls] when no callee, or caller, is left
    out. *)
Theorem stats_counts_consistent (self : RelationshipDetector) :
  relationships self ≠ [] →
  ∃ total callers callees mc mcf,
    _calculate_stats self =
      Stats (Some total) (Some callers) (Some callees) (Some mc) (Some mcf)
    ∧ total = Z.of_nat (length (relationships self))
    ∧ 1 ≤ callers ≤ total ∧ 1 ≤ callees ≤ total
    ∧ Z.of_nat (length mc) = Z.min 5 callees
    ∧ Z.of_nat (length mcf) = Z.min 5 callers
    ∧ 0 ≤ total_count mc ≤ total ∧ 0 ≤ total_count mcf ≤ total
    ∧ (callees ≤ 5 → total_count mc = total)
    ∧ (callers ≤ 5 → total_count mcf = total).
Proof.
  intros Hrels. eexists _, _, _, _, _. split.
  { unfold _calculate_stats. destruct (relationships self) eqn:Heq; [done|].
    rewrite <-Heq. reflexivity. }
  rewrite !size_list_to_set_tally.
  rewrite _get_most_called_ranked, _get_most_calls_from_ranked.
  destruct (ranked_top_spec (callee <$> relationships self) 5)
    as (_ & _ & _ & _ & _ & Hlen1 & Hsum1 & Hall1).
  destruct (ranked_top_spec (caller <$> relationships self) 5)
    as (_ & _ & _ & _ & _ & Hlen2 & Hsum2 & Hall2).
  cbv zeta in *.
  assert (callee <$> relationships self ≠ []) as Hne1
    by (by destruct (relationships self)).
  assert (caller <$> relationships self ≠ []) as Hne2
    by (by destruct (relationships self)).
  apply tally_length_bounds in Hne1, Hne2.
  rewrite (length_fmap callee) in *. rewrite (length_fmap caller) in *.
  split; [done|]. split; [lia|]. split; [lia|]. split; [lia|]. split; [lia|].
  split; [lia|]. split; [lia|]. split.
  - intros ?. apply Hall1. lia.
  - intros ?. apply Hall2. lia.
Qed.

Lemma stats_counts_consistent_witness :
  ∃ total callers callees mc mcf,
    _calculate_stats
      (Detector [Edge (Some "f") "x" 2 function_call;
                 Edge (Some "f") "x" 3 method_call;
                 Edge (Some "g") "y" 5 function_call] ∅ (Some "g")) =
      Stats (Some total) (Some callers) (Some callees) (Some mc) (Some mcf)
    ∧ total = 3 ∧ 1 ≤ callers ≤ total ∧ 1 ≤ callees ≤ total
    ∧ total_count mc = total ∧ total_count mcf = total.
Proof.
  destruct (stats_counts_consistent
              (Detector [Edge (Some "f") "x" 2 function_call;
                         Edge (Some "f") "x" 3 method_call;
                         Edge (Some "g") "y" 5 function_call] ∅ (Some "g")))
    as (total & callers & callees & mc & mcf & Hstats & Htotal & ? & ? & _);
    [done|].
  exists total, callers, callees, mc, mcf.
  vm_compute in Hstats. simplify_eq. by vm_compute.
Defined.

(** *** Callers are function definitions *)

(** X3: the callers of a unit are names of its function definitions: there are
    no more distinct callers than function definitions, and every caller
    listed in [most_calls_from] is the name of a function definition of the
    tree, never the absent caller. *)
Theorem callers_are_function_definitions
    (parse : string → SyntaxError + node) (self : RelationshipDetector)
    (code : string) (tree : node) :
  parse code = inr tree →
  ∃ r self',
    detect_relationships parse self code = Ok (r, self')
    ∧ (∀ n, unique_callers (det_stats r) = Some n →
         0 ≤ n ≤ Z.of_nat (length (filter (λ f, is_function_def f = true)
                                     (preorder tree))))
    ∧ (∀ mcf c n, most_calls_from (det_stats r) = Some mcf → (c, n) ∈ mcf →
         ∃ f, f ∈ preorder tree ∧ is_function_def f = true
              ∧ c = Some (node_name f)).
Proof.
  intros Hparse.
  destruct (detect_relationships_parsed _ self _ _ Hparse) as (fc & cf & ->).
  eexists _, _. split; [done|]. cbn [det_stats det_relationships].
  set (edges := walk tree ≫= function_edges).
  assert (Hcaller : ∀ c, c ∈ caller <$> edges →
    c ∈ (λ f, Some (node_name f)) <$> filter (λ f, is_function_def f = true)
                                        (preorder tree)).
  { intros c (e & -> & He)%list_elem_of_fmap.
    apply elem_of_function_edges in He as (f & call & Hf & Hdef & _ & He).
    apply elem_of_call_edge in He as (-> & _).
    apply list_elem_of_fmap. exists f. split; [done|]. by apply list_elem_of_filter. }
  split.
  - intros n. unfold _calculate_stats. cbn [relationships].
    destruct edges as [|e edges'] eqn:Hedges; [intros [= <-]; lia|].
    rewrite <-Hedges in *. intros [= <-]. split; [lia|].
    apply inj_le. etrans.
    { apply (subseteq_size _
        (list_to_set ((λ f, Some (node_name f)) <$>
                        filter (λ f, is_function_def f = true) (preorder tree)))).
      intros c. rewrite !elem_of_list_to_set. apply Hcaller. }
    rewrite size_list_to_set_tally.
    destruct (filter (λ f, is_function_def f = true) (preorder tree)) eqn:Hdefs;
      [done|].
    rewrite <-Hdefs.
    etrans; [apply tally_length_bounds|by rewrite length_fmap].
    by rewrite Hdefs.
  - intros mcf c n. unfold _calculate_stats. cbn [relationships].
    destruct edges as [|e edges'] eqn:Hedges; [done|].
    rewrite <-Hedges in *. intros [= <-] Hc.
    rewrite _get_most_calls_from_ranked in Hc.
    destruct (ranked_top_spec (caller <$> edges) 5) as (_ & Hin & _).
    apply Hin in Hc as [Hc _]. apply Hcaller in Hc.
    apply list_elem_of_fmap in Hc as (f & -> & [? ?]%list_elem_of_filter). eauto.
Qed.

Lemma callers_are_function_definitions_witness :
  ∃ r self',
    detect_relationships (parse_only nested_source nested_tree) init
      nested_source = Ok (r, self')
    ∧ (∀ n, unique_callers (det_stats r) = Some n → 0 ≤ n ≤ 2).
Proof.
  destruct (callers_are_function_definitions
              (parse_only nested_source nested_tree) init nested_source
              nested_tree)
    as (r & self' & Hrun & Hbound & _); [reflexivity|].
  exists r, self'. split; [exact Hrun|]. exact Hbound.
Defined.

(** *** No call inside a function definition is missed *)

(** X4: every call with a name or an attribute target that lies anywhere in the
    subtree of a function definition (its body, its decorators, its
    arguments, definitions nested in it) has an edge with that definition
    as caller; in particular a call among the decorators of a definition is
    an edge of the decorated function. *)
Theorem every_call_in_a_function_has_an_edge
    (parse : string → SyntaxError + node) (self : RelationshipDetector)
    (code : string) (tree : node) :
  parse code = inr tree →
  ∃ r self',
    detect_relationships parse self code = Ok (r, self')
    ∧ (∀ f call e,
         f ∈ preorder tree → is_function_def f = true → call ∈ preorder f →
         e ∈ call_edge (Some (node_name f)) call →
         e ∈ det_relationships r)
    ∧ (∀ name lineno arg_names args body decorator_list rest decorator e,
         FunctionDef name lineno arg_names args body decorator_list rest
           ∈ preorder tree →
         decorator ∈ decorator_list →
         e ∈ call_edge (Some name) decorator →
         e ∈ det_relationships r).
Proof.
  intros Hparse.
  destruct (detect_relationships_parsed _ self _ _ Hparse) as (fc & cf & ->).
  eexists _, _. split; [done|]. cbn [det_relationships].
  assert (Hall : ∀ f call e,
    f ∈ preorder tree → is_function_def f = true → call ∈ preorder f →
    e ∈ call_edge (Some (node_name f)) call →
    e ∈ walk tree ≫= function_edges).
  { intros f call e Hf Hdef Hcall He. apply list_elem_of_bind. exists f.
    split; [|by rewrite walk_preorder].
    destruct f; try done; cbn [function_edges].
    all: apply list_elem_of_bind; exists call.
    all: by rewrite walk_preorder. }
  split; [exact Hall|].
  intros name lineno arg_names args body decs rest decorator e Hf Hdec He.
  apply (Hall _ decorator _ Hf); [done| |done].
  rewrite preorder_children. right. apply list_elem_of_bind. exists decorator.
  split; [apply preorder_self|]. cbn [iter_child_nodes].
  right. apply elem_of_app. right. apply elem_of_app. by left.
Qed.

Lemma every_call_in_a_function_has_an_edge_witness :
  ∃ r self',
    detect_relationships (parse_only nested_source nested_tree) init
      nested_source = Ok (r, self')
    ∧ Edge (Some "f") "h" 3 function_call ∈ det_relationships r.
Proof.
  destruct (every_call_in_a_function_has_an_edge
              (parse_only nested_source nested_tree) init nested_source
              nested_tree)
    as (r & self' & Hrun & Hall & _); [reflexivity|].
  exists r, self'. split; [exact Hrun|].
  apply (Hall (FunctionDef "f" 1 [] (Other [])
                 [FunctionDef "g" 2 [] (Other [])
                    [Other [Call 3 (Name 3 "h") [] []]] [] []] [] [])
              (Call 3 (Name 3 "h") [] [])).
  - vm_compute. repeat constructor.
  - reflexivity.
  - vm_compute. repeat constructor.
  - left.
Defined.

(** *** The [function_calls] dictionary *)

Lemma find_calls_step_function_calls (self : RelationshipDetector)
    (child : node) (cur : string) (calls : list string) :
  current_function self = Some cur →
  function_calls self !! cur = Some calls →
  ∃ fc, find_calls_step self child =
          Ok (Detector (relationships self ++ call_edge (Some cur) child) fc
                (Some cur))
        ∧ fc !! cur =
            Some (calls ++ if truthy cur then direct_callee child else [])
        ∧ ∀ k, k ≠ cur → fc !! k = function_calls self !! k.
Proof.
  destruct self as [rels fc cf]; simpl. intros -> Hcalls.
  destruct child as [| | | | | | |lineno func ? ?| | |];
    try (exists fc; simpl; destruct (truthy cur); by rewrite !app_nil_r).
  destruct func;
    try (exists fc; simpl; destruct (truthy cur); by rewrite !app_nil_r).
  simpl. rewrite Hcalls. destruct (truthy cur).
  - eexists. split; [done|]. split; [by rewrite lookup_insert_eq|].
    intros k ?. by rewrite lookup_insert_ne.
  - exists fc. by rewrite app_nil_r.
Qed.

Lemma find_calls_loop_function_calls (l : list node)
    (self : RelationshipDetector) (cur : string) (calls : list string) :
  current_function self = Some cur →
  function_calls self !! cur = Some calls →
  ∃ fc, for_each find_calls_step self l =
          Ok (Detector (relationships self ++ (l ≫= call_edge (Some cur))) fc
                (Some cur))
        ∧ fc !! cur =
            Some (calls ++ if truthy cur then l ≫= direct_callee else [])
        ∧ ∀ k, k ≠ cur → fc !! k = function_calls self !! k.
Proof.
  revert self calls. induction l as [|child l IH]; intros self calls Hcur Hkey.
  - destruct self as [rels fc cf]; simpl in *; subst.
    exists fc. rewrite !app_nil_r. by destruct (truthy cur); rewrite ?app_nil_r.
  - destruct (find_calls_step_function_calls self child cur calls Hcur Hkey)
      as (fc & Hstep & Hfc & Hother).
    cbn [for_each]. rewrite Hstep. cbn [mbind result_bind].
    destruct (IH (Detector (relationships self ++ call_edge (Some cur) child)
                    fc (Some cur)) _ eq_refl Hfc) as (fc' & Hloop & Hfc' & Hother').
    exists fc'. split; [|split].
    + rewrite Hloop. cbn [relationships mbind list_bind]. by rewrite <-(assoc_L (++)).
    + rewrite Hfc'. cbn [mbind list_bind]. f_equal.
      destruct (truthy cur); by rewrite <-?(assoc_L (++)), ?app_nil_r.
    + intros k Hk. rewrite Hother' by done. by apply Hother.
Qed.

Lemma analyze_calls_step_function_calls (self : RelationshipDetector)
    (n : node) :
  ∃ fc cf, analyze_calls_step self n =
             Ok (Detector (relationships self ++ function_edges n) fc cf)
           ∧ ∀ k, fc !! k =
                  if decide (is_function_def n = true ∧ node_name n = k)
                  then Some (direct_calls n)
                  else function_calls self !! k.
Proof.
  destruct n as [|name lineno arg_names args body decs rest
                 |name lineno arg_names args body decs rest| | | | | | | |];
    try (destruct self as [rels fc cf]; exists fc, cf;
         cbn [analyze_calls_step function_edges relationships function_calls];
         rewrite app_nil_r; split; [done|]; intros k;
         case_decide as Hd; [by destruct Hd|done]).
  all: unfold analyze_calls_step, _find_calls_in_node, function_edges.
  all: match goal with
       | |- context [walk ?f] =>
           destruct (find_calls_loop_function_calls
                       (walk f) (Detector (relationships self)
                         (<[name := []]> (function_calls self)) (Some name))
                       name [])
             as (fc & -> & Hfc & Hother);
             [done|apply lookup_insert_eq|]
       end.
  all: exists fc, (Some name); split; [done|]; intros k; cbn [node_name is_function_def].
  all: destruct (decide (name = k)) as [<-|Hk].
  all: try (rewrite decide_True by done; by rewrite Hfc).
  all: rewrite decide_False by (by intros [_ ?]).
  all: rewrite Hother by done; cbn [function_calls]; by rewrite lookup_insert_ne.
Qed.

Lemma definitions_named_cons (name : string) (n : node) (l : list node) :
  definitions_named name (n :: l) =
  if decide (is_function_def n = true ∧ node_name n = name)
  then n :: definitions_named name l
  else definitions_named name l.
Proof. unfold definitions_named. by rewrite filter_cons. Qed.

Lemma analyze_calls_loop_function_calls (l : list node)
    (self : RelationshipDetector) :
  ∃ fc cf, for_each analyze_calls_step self l =
             Ok (Detector (relationships self ++ (l ≫= function_edges)) fc cf)
           ∧ ∀ k, fc !! k =
                  match last (definitions_named k l) with
                  | Some n => Some (direct_calls n)
                  | None => function_calls self !! k
                  end.
Proof.
  revert self. induction l as [|n l IH]; intros self.
  - destruct self; simpl. rewrite app_nil_r. eauto.
  - destruct (analyze_calls_step_function_calls self n) as (fc & cf & Hstep & Hfc).
    cbn [for_each]. rewrite Hstep. cbn [mbind result_bind].
    destruct (IH (Detector (relationships self ++ function_edges n) fc cf))
      as (fc' & cf' & -> & Hfc').
    exists fc', cf'. split.
    { cbn [relationships mbind list_bind]. by rewrite <-(assoc_L (++)). }
    intros k. rewrite Hfc'. cbn [function_calls].
    rewrite Hfc, definitions_named_cons.
    destruct (decide (is_function_def n = true ∧ node_name n = k)); [|done].
    rewrite last_cons. by destruct (last (definitions_named k l)).
Qed.

Lemma direct_callees_of_edges (cur : option string) (l : list node) :
  l ≫= direct_callee =
  callee <$> filter (λ e, type e = function_call) (l ≫= call_edge cur).
Proof.
  induction l as [|n l IH]; [done|].
  cbn [mbind list_bind]. rewrite filter_app, fmap_app.
  change (list_bind _ _ ?f ?k) with (k ≫= f). rewrite <-IH. f_equal.
  destruct n as [| | | | | | |? func ? ?| | |]; try done. by destruct func.
Qed.

(** X5: after a call on text that parses, [function_calls] has one key for
    every name that some function definition of the tree carries, and no
    other key.  Under a name it holds the bare names called in the subtree
    of the last definition of that name in the order of [walk]: an earlier
    definition of the same name is overwritten.  These are the callees of
    the direct-call edges of that definition. *)
Theorem function_calls_after_detect
    (parse : string → SyntaxError + node) (self : RelationshipDetector)
    (code : string) (tree : node) :
  parse code = inr tree →
  ∃ r self',
    detect_relationships parse self code = Ok (r, self')
    ∧ (∀ name, function_calls self' !! name =
               direct_calls <$> last (definitions_named name (walk tree)))
    ∧ (∀ name, is_Some (function_calls self' !! name) ↔
               ∃ f, f ∈ preorder tree ∧ is_function_def f = true
                    ∧ node_name f = name)
    ∧ (∀ f, is_function_def f = true → truthy (node_name f) = true →
            direct_calls f =
            callee <$> filter (λ e, type e = function_call) (function_edges f)).
Proof.
  intros Hparse. unfold detect_relationships, _analyze_calls. rewrite Hparse.
  destruct (analyze_calls_loop_function_calls (walk tree)
              (Detector [] ∅ (current_function self)))
    as (fc & cf & -> & Hfc).
  eexists _, _. split; [done|]. cbn [function_calls] in *.
  assert (Hlookup : ∀ name,
    fc !! name = direct_calls <$> last (definitions_named name (walk tree))).
  { intros name. rewrite Hfc.
    destruct (last (definitions_named name (walk tree))); [done|].
    by rewrite lookup_empty. }
  split; [exact Hlookup|]. split.
  - intros name. rewrite Hlookup, fmap_is_Some, last_is_Some. split.
    + intros Hne. destruct (definitions_named name (walk tree)) as [|f l] eqn:Hdefs;
        [done|].
      assert (f ∈ definitions_named name (walk tree)) as Hf
        by (rewrite Hdefs; left).
      apply list_elem_of_filter in Hf as [[? ?] Hf]. rewrite walk_preorder in Hf.
      eauto.
    + intros (f & Hf & Hdef & Hname) Hnil. rewrite <-walk_preorder in Hf.
      assert (f ∈ definitions_named name (walk tree)) as Hin
        by by apply list_elem_of_filter.
      rewrite Hnil in Hin. by apply elem_of_nil in Hin.
  - intros f Hdef Htruthy. unfold direct_calls. rewrite Htruthy.
    destruct f; try done; cbn [function_edges].
    all: apply direct_callees_of_edges.
Qed.

Lemma function_calls_after_detect_witness :
  ∃ r self',
    detect_relationships (parse_only nested_source nested_tree) init
      nested_source = Ok (r, self')
    ∧ function_calls self' !! "f" = Some ["h"]
    ∧ function_calls self' !! "g" = Some ["h"]
    ∧ function_calls self' !! "h" = None.
Proof.
  destruct (function_calls_after_detect
              (parse_only nested_source nested_tree) init nested_source
              nested_tree)
    as (r & self' & Hrun & Hlookup & _); [reflexivity|].
  exists r, self'. split; [exact Hrun|].
  rewrite !Hlookup. by vm_compute.
Defined.

End StatisticsFacts.

(** ** More on the structure extractor *)

Module ExtractorMoreFacts.
Import Ast AstFacts Extractor ExtractorFacts.

Lemma length_split (sep : Ascii.ascii) (s : string) :
  length (split sep s) = S (count_char sep s).
Proof.
  induction s as [|c s IH]; [done|]. cbn [split count_char].
  destruct (Ascii.eqb c sep); simpl; [by rewrite IH|].
  destruct (split sep s); simpl in *; lia.
Qed.

Lemma child_in_preorder (n c : node) : c ∈ iter_child_nodes n → c ∈ preorder n.
Proof.
  intros Hc. rewrite preorder_children. right. apply list_elem_of_bind.
  exists c. split; [apply RelationshipsFacts.preorder_self|done].
Qed.

Lemma sum_list_fmap_perm {A : Type} (f : A → nat) (l k : list A) :
  l ≡ₚ k → sum_list (f <$> l) = sum_list (f <$> k).
Proof.
  induction 1 as [|x l k _ IH|x y l|l k m _ IH1 _ IH2]; [done| | |congruence].
  - rewrite !fmap_cons. cbn [sum_list_with]. by rewrite IH.
  - rewrite !fmap_cons. cbn [sum_list_with]. unfold id. lia.
Qed.

Section Facts.
Variable read_file : string → read_error + string.
Variable parse : string → SyntaxError + node.
Variable unparse : node → string.
Variable get_docstring : node → option string.

Local Abbreviation extract_from_file :=
  (Extractor.extract_from_file read_file parse unparse get_docstring).
Local Abbreviation walk_tree_step :=
  (Extractor.walk_tree_step unparse get_docstring).
Local Abbreviation class_entries :=
  (Extractor.class_entries unparse get_docstring).
Local Abbreviation function_entries :=
  (Extractor.function_entries unparse get_docstring).

Lemma walk_tree_step_entries (self : CodeExtractor) (n : node) :
  functions (entities (walk_tree_step self n))
    = functions (entities self) ++ function_entries n
  ∧ imports (entities (walk_tree_step self n))
    = imports (entities self) ++ import_entries n
  ∧ decorators (entities (walk_tree_step self n)) = decorators (entities self).
Proof. destruct n; cbn; by rewrite ?app_nil_r. Qed.

Lemma walk_tree_loop_entries (l : list node) (self : CodeExtractor) :
  functions (entities (foldl walk_tree_step self l))
    = functions (entities self) ++ (l ≫= function_entries)
  ∧ imports (entities (foldl walk_tree_step self l))
    = imports (entities self) ++ (l ≫= import_entries)
  ∧ decorators (entities (foldl walk_tree_step self l))
    = decorators (entities self).
Proof.
  revert self. induction l as [|n l IH]; intros self.
  - simpl. by rewrite !app_nil_r.
  - cbn [foldl]. destruct (IH (walk_tree_step self n)) as (-> & -> & ->).
    destruct (walk_tree_step_entries self n) as (-> & -> & ->).
    cbn [mbind list_bind]. by rewrite <-!(assoc_L (++)).
Qed.

(** After a readable file that parses, the function and import entries are
    those of the nodes of the tree, in the order of [walk]. *)
Lemma extract_from_file_entries (self : CodeExtractor) (path code : string)
    (tree : node) :
  read_file path = inr code → parse code = inr tree →
  functions (extract_from_file self path).1.1 = walk tree ≫= function_entries
  ∧ imports (extract_from_file self path).1.1 = walk tree ≫= import_entries
  ∧ decorators (extract_from_file self path).1.1 = [].
Proof.
  intros Hread Hparse. rewrite (extract_from_file_parsed _ _ _ _ _ _ _ _ Hread Hparse).
  cbn [fst].
  by destruct (walk_tree_loop_entries (walk tree) (fresh path code)) as (-> & -> & ->).
Qed.

Lemma elem_of_function_entries (f : FunctionEntity) (n : node) :
  f ∈ function_entries n ↔
  ∃ name lineno arg_names args body decorator_list rest,
    n = FunctionDef name lineno arg_names args body decorator_list rest
    ∧ f = {| function_name := name;
             function_line := lineno;
             Extractor.args := arg_names;
             arg_count := Z.of_nat (length arg_names);
             function_decorators := unparse <$> decorator_list;
             function_docstring := default "" (get_docstring n) |}.
Proof.
  split.
  - destruct n; cbn; try by intros ?%elem_of_nil.
    intros ->%list_elem_of_singleton. eauto 10.
  - intros (? & ? & ? & ? & ? & ? & ? & -> & ->). cbn. left.
Qed.

Lemma length_function_entries (l : list node) :
  length (l ≫= function_entries)
  = length (filter (λ n, is_FunctionDef n = true) l).
Proof.
  induction l as [|n l IH]; [done|].
  cbn [mbind list_bind]. rewrite length_app, filter_cons.
  change (list_bind _ _ ?f ?k) with (k ≫= f). rewrite IH.
  destruct n; try done. all: by case_decide.
Qed.

Lemma length_import_entries (l : list node) :
  length (l ≫= import_entries) = sum_list (imported_names <$> l).
Proof.
  induction l as [|n l IH]; [done|].
  cbn [mbind list_bind]. rewrite length_app, fmap_cons. cbn [sum_list_with].
  change (list_bind _ _ ?f ?k) with (k ≫= f). rewrite IH. unfold id. f_equal.
  destruct n; try done; cbn; by rewrite length_fmap.
Qed.

(** X6: the function entries are the [def] statements of the whole tree: one
    entry for every [FunctionDef] node, top-level, nested or method, in the
    order of [walk], and none for any other node, [async def] included;
    each entry carries the name and the line of its node and the unparsed
    decorators of its node, and [arg_count] is the length of its [args]
    list.  Decorators are listed with their function only: the
    [decorators] collection of the result stays empty. *)
Theorem function_entries_are_def_statements (self : CodeExtractor)
    (path code : string) (tree : node) :
  read_file path = inr code → parse code = inr tree →
  let found := (extract_from_file self path).1.1 in
  length (functions found)
    = length (filter (λ n, is_FunctionDef n = true) (preorder tree))
  ∧ (λ f, (function_name f, function_line f)) <$> functions found
    = (λ n, (node_name n, default 0 (node_lineno n)))
        <$> filter (λ n, is_FunctionDef n = true) (walk tree)
  ∧ (∀ name lineno arg_names args body decorator_list rest,
       FunctionDef name lineno arg_names args body decorator_list rest
         ∈ preorder tree →
       ∃ f, f ∈ functions found ∧ function_name f = name
            ∧ function_line f = lineno
            ∧ function_decorators f = unparse <$> decorator_list)
  ∧ (∀ f, f ∈ functions found →
       arg_count f = Z.of_nat (length (Extractor.args f))
       ∧ ∃ name lineno arg_names args body decorator_list rest,
           FunctionDef name lineno arg_names args body decorator_list rest
             ∈ preorder tree
           ∧ function_name f = name ∧ function_line f = lineno
           ∧ function_decorators f = unparse <$> decorator_list)
  ∧ decorators found = [].
Proof.
  intros Hread Hparse found.
  destruct (extract_from_file_entries self path code tree Hread Hparse)
    as (Hfun & _ & Hdec).
  fold found in Hfun, Hdec. split_and!.
  - rewrite Hfun, length_function_entries. apply Permutation_length.
    by rewrite walk_preorder.
  - rewrite Hfun. generalize (walk tree). intros l.
    induction l as [|n l IH]; [done|].
    cbn [mbind list_bind]. rewrite fmap_app, filter_cons.
    change (list_bind _ _ ?f ?k) with (k ≫= f). rewrite IH.
    by destruct n.
  - intros name lineno arg_names args body decs rest Hnode.
    eexists. split.
    + rewrite Hfun. apply list_elem_of_bind. eexists. split.
      * apply elem_of_function_entries. eauto 10.
      * by rewrite walk_preorder.
    + done.
  - intros f Hf. rewrite Hfun in Hf.
    apply list_elem_of_bind in Hf as (n & Hf & Hn). rewrite walk_preorder in Hn.
    apply elem_of_function_entries in Hf
      as (name & lineno & arg_names & args & body & decs & rest & -> & ->).
    split; [done|]. eauto 12.
  - done.
Qed.

(** X7: class entries and function entries agree: every method name listed for
    a class is the name of a function entry of the same result, and
    [method_count] is the length of the method list. *)
Theorem methods_are_function_entries (self : CodeExtractor)
    (path code : string) (tree : node) :
  read_file path = inr code → parse code = inr tree →
  let found := (extract_from_file self path).1.1 in
  ∀ c, c ∈ classes found →
    method_count c = Z.of_nat (length (methods c))
    ∧ ∀ m, m ∈ methods c → ∃ f, f ∈ functions found ∧ function_name f = m.
Proof.
  intros Hread Hparse found c Hc.
  destruct (extract_from_file_entries self path code tree Hread Hparse)
    as (Hfun & _ & _).
  fold found in Hfun. unfold found in Hc.
  rewrite (extract_from_file_classes _ _ _ _ self path code tree Hread Hparse) in Hc.
  apply list_elem_of_bind in Hc as (n & Hc & Hn). rewrite walk_preorder in Hn.
  apply elem_of_class_entries in Hc
    as (name & lineno & bases & kws & body & decs & tps & -> & ->).
  split; [done|]. cbn [methods]. intros m Hm.
  apply list_elem_of_fmap in Hm as (d & -> & Hd).
  apply list_elem_of_filter in Hd as [Hdef Hd].
  assert (d ∈ preorder tree) as Hin.
  { eapply RelationshipsFacts.preorder_subtree; [exact Hn|].
    apply child_in_preorder. cbn [iter_child_nodes].
    apply elem_of_app. right. apply elem_of_app. right. apply elem_of_app. by left. }
  destruct d; try done. eexists. split.
  - rewrite Hfun. apply list_elem_of_bind. eexists. split.
    + apply elem_of_function_entries. eauto 10.
    + by rewrite walk_preorder.
  - done.
Qed.

(** X8: an import statement that names several targets gives one entry per
    target, in order, each with the line of the statement; a relative
    [from . import x], whose module is absent, is entered with the empty
    module name.  The number of import entries is the number of names the
    import statements of the tree bind. *)
Theorem imports_one_entry_per_name (self : CodeExtractor)
    (path code : string) (tree : node) :
  read_file path = inr code → parse code = inr tree →
  let found := (extract_from_file self path).1.1 in
  length (imports found) = sum_list (imported_names <$> preorder tree)
  ∧ (∀ lineno names a, Import lineno names ∈ preorder tree → a ∈ names →
       import_record (alias_name a) (asname a) lineno ∈ imports found)
  ∧ (∀ lineno module names a,
       ImportFrom lineno module names ∈ preorder tree → a ∈ names →
       from_record (default "" module) (alias_name a) (asname a) lineno
         ∈ imports found)
  ∧ (∀ r, r ∈ imports found →
       ∃ n, n ∈ preorder tree ∧ (0 < imported_names n)%nat
            ∧ node_lineno n = Some (import_line r)).
Proof.
  intros Hread Hparse found.
  destruct (extract_from_file_entries self path code tree Hread Hparse)
    as (_ & Himp & _).
  fold found in Himp. rewrite Himp. split_and!.
  - rewrite length_import_entries. apply sum_list_fmap_perm, walk_preorder.
  - intros lineno names a Hn Ha. apply list_elem_of_bind. eexists.
    split; [|by rewrite walk_preorder]. cbn.
    apply list_elem_of_fmap. by exists a.
  - intros lineno module names a Hn Ha. apply list_elem_of_bind. eexists.
    split; [|by rewrite walk_preorder]. cbn.
    apply list_elem_of_fmap. by exists a.
  - intros r (n & Hr & Hn)%list_elem_of_bind. rewrite walk_preorder in Hn.
    exists n. split; [done|].
    destruct n; cbn in Hr; try by apply elem_of_nil in Hr.
    all: apply list_elem_of_fmap in Hr as (a & -> & Ha).
    all: split; [|done]; cbn; destruct names; [by apply elem_of_nil in Ha|simpl; lia].
Qed.

(** Every entry carries the line number of a node of the tree. *)
Lemma entity_lines_in_tree (self : CodeExtractor) (path code : string)
    (tree : node) :
  read_file path = inr code → parse code = inr tree →
  let found := (extract_from_file self path).1.1 in
  (∀ c, c ∈ classes found →
     ∃ n, n ∈ preorder tree ∧ node_lineno n = Some (class_line c))
  ∧ (∀ f, f ∈ functions found →
       ∃ n, n ∈ preorder tree ∧ node_lineno n = Some (function_line f))
  ∧ (∀ r, r ∈ imports found →
       ∃ n, n ∈ preorder tree ∧ node_lineno n = Some (import_line r)).
Proof.
  intros Hread Hparse found.
  destruct (extract_from_file_entries self path code tree Hread Hparse)
    as (Hfun & Himp & _).
  pose proof (extract_from_file_classes read_file parse unparse get_docstring
                self path code tree Hread Hparse) as Hcls.
  fold found in Hfun, Himp, Hcls. rewrite Hfun, Himp, Hcls. split_and!.
  - intros c (n & Hc & Hn)%list_elem_of_bind. rewrite walk_preorder in Hn.
    apply elem_of_class_entries in Hc as (? & ? & ? & ? & ? & ? & ? & -> & ->).
    eauto.
  - intros f (n & Hf & Hn)%list_elem_of_bind. rewrite walk_preorder in Hn.
    apply elem_of_function_entries in Hf as (? & ? & ? & ? & ? & ? & ? & -> & ->).
    eauto.
  - intros r (n & Hr & Hn)%list_elem_of_bind. rewrite walk_preorder in Hn.
    exists n. split; [done|].
    destruct n; cbn in Hr; try by apply elem_of_nil in Hr.
    all: by apply list_elem_of_fmap in Hr as (a & -> & Ha).
Qed.

(** X9: when the parser numbers the lines of the tree within the lines of the
    text, every class, function and import entry carries a line number from
    1 to the [total_lines] of the same result. *)
Theorem entity_lines_within_total_lines (self : CodeExtractor)
    (path code : string) (tree : node) :
  read_file path = inr code → parse code = inr tree →
  (∀ n l, n ∈ preorder tree → node_lineno n = Some l →
          1 ≤ l ≤ Z.of_nat (length (split "010"%char code))) →
  let found := (extract_from_file self path).1.1 in
  ∃ total,
    total_lines found = Some total
    ∧ (∀ c, c ∈ classes found → 1 ≤ class_line c ≤ total)
    ∧ (∀ f, f ∈ functions found → 1 ≤ function_line f ≤ total)
    ∧ (∀ r, r ∈ imports found → 1 ≤ import_line r ≤ total).
Proof.
  intros Hread Hparse Hlines found.
  destruct (entity_lines_in_tree self path code tree Hread Hparse)
    as (Hcls & Hfun & Himp).
  exists (Z.of_nat (length (split "010"%char code))). split_and!.
  - unfold found.
    rewrite (extract_from_file_parsed _ _ _ _ _ _ _ _ Hread Hparse). cbn [fst].
    by rewrite (proj2 (walk_tree_loop_header _ _ _ _)).
  - intros c (n & Hn & Hline)%Hcls. by apply (Hlines n).
  - intros f (n & Hn & Hline)%Hfun. by apply (Hlines n).
  - intros r (n & Hn & Hline)%Himp. by apply (Hlines n).
Qed.

(** X10: [total_lines] is one more than the number of line breaks of the text
    that was read, whether the text parses or not: an empty file has one
    line, and a text that ends in a line break counts the empty line after
    it. *)
Theorem total_lines_counts_line_breaks (self : CodeExtractor)
    (path code : string) :
  read_file path = inr code →
  let found := (extract_from_file self path).1.1 in
  total_lines found = Some (1 + Z.of_nat (count_char "010"%char code))
  ∧ file_path found = Some path.
Proof.
  intros Hread found.
  assert (Hheader : total_lines found
                    = Some (Z.of_nat (length (split "010"%char code)))
                    ∧ file_path found = Some path).
  { unfold found. destruct (parse code) as [e|tree] eqn:Hparse.
    - by rewrite (extract_from_file_malformed _ _ _ _ _ _ _ _ Hread Hparse).
    - rewrite (extract_from_file_parsed _ _ _ _ _ _ _ _ Hread Hparse). cbn [fst].
      by destruct (walk_tree_loop_header unparse get_docstring (walk tree)
                     (fresh path code)) as [-> ->]. }
  destruct Hheader as [-> ->]. split; [|done]. rewrite length_split. f_equal. lia.
Qed.

(** *** [extract_from_directory] *)

Variable rglob : string → list string.

Local Abbreviation extract_directory_step :=
  (Extractor.extract_directory_step read_file parse unparse get_docstring).





End Facts.

Lemma function_entries_are_def_statements_witness :
  ∃ f, f ∈ functions
             (extract_from_file (read_only "outer.py" outer_source)
                (parse_only outer_source outer_tree) unparse_none
                get_docstring_none init "outer.py").1.1
       ∧ function_name f = "c" ∧ function_line f = 5.
Proof.
  destruct (function_entries_are_def_statements
              (read_only "outer.py" outer_source)
              (parse_only outer_source outer_tree) unparse_none
              get_docstring_none init "outer.py" outer_source outer_tree)
    as (_ & _ & Hnode & _); [reflexivity..|].
  destruct (Hnode "c" 5 ["self"] (Other [Other []]) [Other []] [] [])
    as (f & ? & ? & ? & _); [|by exists f].
  vm_compute. repeat constructor.
Defined.

Lemma methods_are_function_entries_witness :
  ∃ f, f ∈ functions
             (extract_from_file (read_only "outer.py" outer_source)
                (parse_only outer_source outer_tree) unparse_none
                get_docstring_none init "outer.py").1.1
       ∧ function_name f = "b".
Proof.
  destruct (methods_are_function_entries
              (read_only "outer.py" outer_source)
              (parse_only outer_source outer_tree) unparse_none
              get_docstring_none init "outer.py" outer_source outer_tree
              eq_refl eq_refl
              {| class_name := "Outer"; class_line := 1; methods := ["a"; "b"];
                 method_count := 2; bases := ["object"]; class_docstring := "" |})
    as (_ & Hmethods).
  - vm_compute. left.
  - apply Hmethods. right. left.
Defined.

(** [import os, sys as s] and [from . import x]. *)
Lemma imports_one_entry_per_name_witness :
  imports
    (extract_from_file (read_only "imports.py" imports_source)
       (parse_only imports_source imports_tree) unparse_none
       get_docstring_none init "imports.py").1.1
  = [import_record "os" None 1; import_record "sys" (Some "s") 1;
     from_record "" "x" None 2]
  ∧ length
      (imports
         (extract_from_file (read_only "imports.py" imports_source)
            (parse_only imports_source imports_tree) unparse_none
            get_docstring_none init "imports.py").1.1) = 3%nat.
Proof.
  split; [reflexivity|].
  by destruct (imports_one_entry_per_name
                 (read_only "imports.py" imports_source)
                 (parse_only imports_source imports_tree) unparse_none
                 get_docstring_none init "imports.py" imports_source
                 imports_tree eq_refl eq_refl) as (-> & _).
Defined.

Lemma entity_lines_within_total_lines_witness :
  ∃ total,
    total_lines
      (extract_from_file (read_only "outer.py" outer_source)
         (parse_only outer_source outer_tree) unparse_none
         get_docstring_none init "outer.py").1.1 = Some total
    ∧ ∀ c, c ∈ classes
                 (extract_from_file (read_only "outer.py" outer_source)
                    (parse_only outer_source outer_tree) unparse_none
                    get_docstring_none init "outer.py").1.1 →
           1 ≤ class_line c ≤ total.
Proof.
  destruct (entity_lines_within_total_lines
              (read_only "outer.py" outer_source)
              (parse_only outer_source outer_tree) unparse_none
              get_docstring_none init "outer.py" outer_source outer_tree)
    as (total & Htotal & Hclass & _); [reflexivity..| |by exists total].
  intros n l Hn. vm_compute in Hn.
  repeat (apply elem_of_cons in Hn as [->|Hn];
          [intros [= <-]; vm_compute; by split|]).
  by apply elem_of_nil in Hn.
Defined.

Lemma total_lines_counts_line_breaks_witness :
  total_lines
    (extract_from_file (read_only "empty.py" "")
       (parse_only "" (Module [])) unparse_none get_docstring_none init
       "empty.py").1.1 = Some 1.
Proof.
  by destruct (total_lines_counts_line_breaks (read_only "empty.py" "")
                 (parse_only "" (Module [])) unparse_none get_docstring_none
                 init "empty.py" "" eq_refl) as [-> _].
Defined.

End ExtractorMoreFacts.

(** ** The rules of [errors.py] on classes and on [validate] *)

Module ErrorsFacts.
Import Ast AstFacts Errors.

Lemma check_large_classes_step_spec (limit : Z) (self : ErrorDetector) (n : node) :
  check_large_classes_step limit self n =
    {| errors := errors self;
       warnings := warnings self ++ warnings (check_large_classes_step limit init n) |}.
Proof.
  destruct self as [errs warns].
  destruct n; try (simpl; by rewrite app_nil_r).
  cbn [check_large_classes_step]. destruct (limit <? _); [done|].
  simpl. by rewrite app_nil_r.
Qed.

Lemma check_large_classes_loop_spec (limit : Z) (l : list node)
    (self : ErrorDetector) :
  foldl (check_large_classes_step limit) self l =
    {| errors := errors self;
       warnings := warnings self ++
         (l ≫= λ n, warnings (check_large_classes_step limit init n)) |}.
Proof.
  revert self. induction l as [|n l IH]; intros self.
  - destruct self. simpl. by rewrite app_nil_r.
  - cbn [foldl]. rewrite IH, check_large_classes_step_spec.
    cbn [errors warnings mbind list_bind]. by rewrite (assoc_L (++)).
Qed.

(** The warning of one node: the warning of a large class, nothing for any
    other node. *)
Lemma large_class_warning (limit : Z) (n : node) :
  warnings (check_large_classes_step limit init n) =
  match n with
  | ClassDef name lineno _ _ body _ _ =>
      if is_large_class limit n then
        [Issue "LargeClass"
           ("Class '" +:+ name +:+ "' has too many methods ("
            +:+ pretty (length (filter (λ n, Extractor.is_FunctionDef n = true) body))
            +:+ ")")
           (Some lineno)]
      else []
  | _ => []
  end.
Proof.
  destruct n; try done.
  cbn [check_large_classes_step is_large_class]. by destruct (limit <? _).
Qed.

Lemma large_class_warning_lines (limit : Z) (l : list node) :
  issue_line <$> (l ≫= λ n, warnings (check_large_classes_step limit init n))
  = node_lineno <$> filter (λ n, is_large_class limit n = true) l.
Proof.
  induction l as [|n l IH]; [done|].
  cbn [mbind list_bind]. rewrite fmap_app, filter_cons.
  change (list_bind _ _ ?f ?k) with (k ≫= f). rewrite IH, large_class_warning.
  destruct n; try done.
  destruct (is_large_class limit _) eqn:Hlarge;
    [by rewrite decide_True|by rewrite decide_False].
Qed.

(** X12: [_check_large_classes] leaves the errors alone and appends one
    [LargeClass] warning for every class definition of the tree that has
    more than [limit] [def] statements directly in its body, in the order
    of [walk], and no other warning: the lines of the warnings are the
    lines of these classes, in that order.  Every such class has its
    warning, with its line and a message that names the class and its
    number of methods, and every warning is the warning of such a class.
    A class with no more than [limit] statements in its body is not
    reported. *)
Theorem large_classes_are_warned_once (self : ErrorDetector) (tree : node)
    (limit : Z) :
  ∃ added,
    _check_large_classes self tree limit =
      {| errors := errors self; warnings := warnings self ++ added |}
    ∧ issue_line <$> added
      = node_lineno <$> filter (λ n, is_large_class limit n = true) (walk tree)
    ∧ length added
      = length (filter (λ n, is_large_class limit n = true) (preorder tree))
    ∧ (∀ name lineno bases keywords body decorator_list type_params,
         ClassDef name lineno bases keywords body decorator_list type_params
           ∈ preorder tree →
         limit <
           Z.of_nat (length (filter (λ n, Extractor.is_FunctionDef n = true) body)) →
         Issue "LargeClass"
           ("Class '" +:+ name +:+ "' has too many methods ("
            +:+ pretty (length (filter (λ n, Extractor.is_FunctionDef n = true) body))
            +:+ ")")
           (Some lineno) ∈ added)
    ∧ (∀ w, w ∈ added →
         ∃ name lineno bases keywords body decorator_list type_params,
           ClassDef name lineno bases keywords body decorator_list
             type_params ∈ preorder tree
           ∧ limit <
             Z.of_nat (length (filter (λ n, Extractor.is_FunctionDef n = true)
                                 body))
           ∧ w = Issue "LargeClass"
                   ("Class '" +:+ name +:+ "' has too many methods ("
                    +:+ pretty (length (filter
                                  (λ n, Extractor.is_FunctionDef n = true) body))
                    +:+ ")")
                   (Some lineno))
    ∧ (∀ name lineno bases keywords body decorator_list type_params,
         Z.of_nat (length body) ≤ limit →
         is_large_class limit
           (ClassDef name lineno bases keywords body decorator_list type_params)
         = false).
Proof.
  eexists. split; [apply check_large_classes_loop_spec|]. split_and!.
  - apply large_class_warning_lines.
  - rewrite <-(length_fmap issue_line), large_class_warning_lines, length_fmap.
    apply Permutation_length. by rewrite walk_preorder.
  - intros name lineno bases keywords body decs tps Hn Hlarge.
    apply list_elem_of_bind. eexists. split; [|by rewrite walk_preorder].
    rewrite large_class_warning. cbn [is_large_class].
    rewrite (proj2 (Z.ltb_lt _ _) Hlarge). left.
  - intros w (n & Hw & Hn)%list_elem_of_bind. rewrite walk_preorder in Hn.
    rewrite large_class_warning in Hw.
    destruct n; try by apply elem_of_nil in Hw.
    destruct (is_large_class limit _) eqn:Hlarge; [|by apply elem_of_nil in Hw].
    apply list_elem_of_singleton in Hw as ->. cbn in Hlarge.
    apply Z.ltb_lt in Hlarge. eauto 12.
  - intros name lineno bases keywords body decs tps Hfew.
    cbn. apply Z.ltb_ge.
    pose proof (length_filter (λ n, Extractor.is_FunctionDef n = true) body). lia.
Qed.

(** *** The rule on [validate] *)

Lemma throw_loop_spec (l : list node) (has_throw : bool) :
  foldl (λ has_throw n, if is_throw_call n then true else has_throw) has_throw l
  = has_throw || existsb is_throw_call l.
Proof.
  revert has_throw. induction l as [|n l IH]; intros has_throw.
  - simpl. by rewrite orb_false_r.
  - cbn [foldl existsb]. rewrite IH.
    destruct (is_throw_call n), has_throw; simpl; try done.
Qed.

Lemma erpnext_validations_loop_spec (l : list node) (flags : bool * bool) :
  foldl erpnext_validations_step flags l =
  (flags.1 || existsb is_validate l,
   flags.2 || existsb (λ f, is_validate f && existsb is_throw_call (walk f)) l).
Proof.
  revert flags. induction l as [|n l IH]; intros [hv ht].
  - simpl. by rewrite !orb_false_r.
  - cbn [foldl]. rewrite IH. cbn [existsb fst snd].
    destruct n; cbn [erpnext_validations_step is_validate fst snd andb orb];
      try done.
    destruct (String.eqb _ _); cbn [fst snd andb orb]; [|done].
    rewrite throw_loop_spec. f_equal; [by rewrite orb_true_r|].
    by rewrite orb_assoc.
Qed.

Lemma existsb_perm {A : Type} (f : A → bool) (l k : list A) :
  l ≡ₚ k → existsb f l = existsb f k.
Proof.
  induction 1 as [|x l k _ IH|x y l|l k m _ IH1 _ IH2]; [done| | |congruence].
  - simpl. by rewrite IH.
  - simpl. destruct (f x), (f y); done.
Qed.

Lemma existsb_false_iff {A : Type} (f : A → bool) (l : list A) :
  existsb f l = false ↔ ∀ x, x ∈ l → f x = false.
Proof.
  induction l as [|x l IH]; simpl.
  - split; [by intros _ ? ?%elem_of_nil|done].
  - rewrite orb_false_iff, IH. split.
    + intros [? Hl] y [->|?]%elem_of_cons; auto.
    + intros Hall. split; [apply Hall; left|]. intros y ?. apply Hall. by right.
Qed.

Lemma existsb_true_iff {A : Type} (f : A → bool) (l : list A) :
  existsb f l = true ↔ ∃ x, x ∈ l ∧ f x = true.
Proof.
  induction l as [|x l IH]; simpl.
  - split; [done|by intros (? & ?%elem_of_nil & _)].
  - rewrite orb_true_iff, IH. split.
    + intros [?|(y & ? & ?)]; [exists x; split; [left|done]|].
      exists y. split; [by right|done].
    + intros (y & [->|?]%elem_of_cons & ?); [by left|]. right. eauto.
Qed.

(** X13: [_check_erpnext_validations] appends its one warning exactly when the
    tree has a [def validate] and no [def validate] of the tree contains a
    call whose target is the bare name [throw]; otherwise it changes
    nothing.  A call through an attribute, as [frappe.throw(...)], is not
    such a call: a [validate] whose calls all have attribute targets is
    reported. *)
Theorem validate_without_bare_throw_is_warned (self : ErrorDetector)
    (tree : node) :
  let warning :=
    Issue "ERPNextValidation" "`validate()` found but no frappe.throw() used"
      None in
  let reported :=
    {| errors := errors self; warnings := warnings self ++ [warning] |} in
  ((∃ f, f ∈ preorder tree ∧ is_validate f = true)
   ∧ (∀ f c, f ∈ preorder tree → is_validate f = true → c ∈ preorder f →
             is_throw_call c = false) →
   _check_erpnext_validations self tree = reported)
  ∧ ((∀ f, f ∈ preorder tree → is_validate f = false)
     ∨ (∃ f c, f ∈ preorder tree ∧ is_validate f = true ∧ c ∈ preorder f
               ∧ is_throw_call c = true) →
     _check_erpnext_validations self tree = self)
  ∧ ((∃ f, f ∈ preorder tree ∧ is_validate f = true)
     ∧ (∀ f c lineno func args keywords,
          f ∈ preorder tree → is_validate f = true → c ∈ preorder f →
          c = Call lineno func args keywords →
          ∃ l value attr, func = Attribute l value attr) →
     _check_erpnext_validations self tree = reported).
Proof.
  intros warning reported.
  assert (Hrun : _check_erpnext_validations self tree =
    if existsb is_validate (preorder tree)
       && negb (existsb (λ f, is_validate f && existsb is_throw_call (preorder f))
                  (preorder tree))
    then reported else self).
  { unfold _check_erpnext_validations.
    rewrite erpnext_validations_loop_spec. cbn [fst snd orb].
    rewrite (existsb_perm _ _ _ (walk_preorder tree)).
    rewrite (existsb_perm (λ f, is_validate f && _) _ _ (walk_preorder tree)).
    replace (existsb (λ f, is_validate f && existsb is_throw_call (walk f))
               (preorder tree))
      with (existsb (λ f, is_validate f && existsb is_throw_call (preorder f))
              (preorder tree)); [done|].
    induction (preorder tree) as [|f l IH]; [done|]. simpl. rewrite IH.
    by rewrite (existsb_perm _ _ _ (walk_preorder f)). }
  assert (Hwarn : (∃ f, f ∈ preorder tree ∧ is_validate f = true)
   ∧ (∀ f c, f ∈ preorder tree → is_validate f = true → c ∈ preorder f →
             is_throw_call c = false) →
   _check_erpnext_validations self tree = reported).
  { intros [Hvalidate Hthrow]. rewrite Hrun.
    apply existsb_true_iff in Hvalidate as ->.
    replace (existsb _ (preorder tree)) with false; [done|].
    symmetry. apply existsb_false_iff. intros f Hf.
    destruct (is_validate f) eqn:Hv; [|done]. simpl.
    apply existsb_false_iff. intros c Hc. by apply (Hthrow f). }
  split; [exact Hwarn|]. split.
  - intros [Hnone|(f & c & Hf & Hv & Hc & Hthrow)]; rewrite Hrun.
    + replace (existsb is_validate (preorder tree)) with false; [done|].
      symmetry. by apply existsb_false_iff.
    + replace (existsb (λ f, is_validate f && _) (preorder tree)) with true;
        [by rewrite andb_false_r|].
      symmetry. apply existsb_true_iff. exists f. split; [done|].
      rewrite Hv. simpl. apply existsb_true_iff. eauto.
  - intros [Hvalidate Hattr]. apply Hwarn. split; [done|].
    intros f c Hf Hv Hc. destruct c as [| | | | | | |l func a k| | |]; try done.
    destruct (Hattr f _ l func a k Hf Hv Hc eq_refl) as (? & ? & ? & ->). done.
Qed.

Lemma validate_without_bare_throw_is_warned_witness :
  _check_erpnext_validations init validate_tree =
    {| errors := [];
       warnings := [Issue "ERPNextValidation"
                      "`validate()` found but no frappe.throw() used" None] |}.
Proof.
  destruct (validate_without_bare_throw_is_warned init validate_tree)
    as (_ & _ & Hattr).
  apply Hattr. split.
  - exists (FunctionDef "validate" 1 ["self"] (Other [Other []])
              [Other [Call 2 (Attribute 2 (Name 2 "frappe") "throw")
                        [Name 2 "msg"] []]] [] []).
    split; [|reflexivity]. vm_compute. right. left.
  - intros f c lineno func args keywords Hf Hv Hc ->.
    vm_compute in Hf.
    repeat (apply elem_of_cons in Hf as [->|Hf]; [try done|]);
      [|by apply elem_of_nil in Hf].
    vm_compute in Hc.
    repeat (apply elem_of_cons in Hc as [[=]|Hc]; subst; eauto).
    by apply elem_of_nil in Hc.
Defined.

End ErrorsFacts.

(** ** Chunks of a text *)

Module RagFacts.
Import Rag.

Lemma range_forward (stop step : Z) :
  0 < step → 0 < stop →
  ∃ indices, range stop step = inr indices
    ∧ (∀ i, i ∈ indices ↔ ∃ k : nat, i = Z.of_nat k * step ∧ i < stop)
    ∧ StronglySorted Z.lt indices.
Proof.
  intros Hstep Hstop. unfold range.
  rewrite (proj2 (Z.eqb_neq step 0)) by lia.
  rewrite (proj2 (Z.ltb_lt 0 step)), (proj2 (Z.ltb_lt 0 stop)) by done.
  eexists. split; [done|].
  set (count := (stop + step - 1) / step).
  assert (Hlow : count * step ≤ stop + step - 1).
  { rewrite Z.mul_comm. apply Z.mul_div_le. lia. }
  assert (Hhigh : stop + step - 1 < (count + 1) * step).
  { pose proof (Z.mul_succ_div_gt (stop + step - 1) step Hstep).
    unfold count. lia. }
  assert (0 ≤ count) by (apply Z.div_pos; lia).
  split.
  - intros i. rewrite list_elem_of_fmap. split.
    + intros (k & -> & Hk). apply elem_of_seq in Hk. exists k. split; [done|]. nia.
    + intros (k & -> & Hk). exists k. split; [done|]. apply elem_of_seq. nia.
  - generalize (Z.to_nat count). generalize 0%nat.
    intros a n. revert a. induction n as [|n IH]; intros a; [constructor|].
    cbn [seq fmap list_fmap]. constructor; [apply IH|].
    apply Forall_forall. intros i (k & -> & Hk)%list_elem_of_fmap.
    apply elem_of_seq in Hk. nia.
Qed.

Lemma slice_forward {A : Type} (l : list A) (i size : Z) :
  0 ≤ i < Z.of_nat (length l) → 0 < size →
  slice i (i + size) l =
  take (Z.to_nat (Z.min (i + size) (Z.of_nat (length l)) - i))
    (drop (Z.to_nat i) l).
Proof.
  intros Hi Hsize. unfold slice, slice_index.
  rewrite (proj2 (Z.ltb_ge i 0)), (proj2 (Z.ltb_ge (i + size) 0)) by lia.
  f_equal; [|f_equal]; lia.
Qed.

Lemma StronglySorted_bind {A B : Type} (R : relation A) (R' : relation B)
    (f : A → list B) (l : list A) :
  (∀ x, StronglySorted R' (f x)) →
  (∀ x y a b, R x y → a ∈ f x → b ∈ f y → R' a b) →
  StronglySorted R l → StronglySorted R' (l ≫= f).
Proof.
  intros Hone Hcross. induction 1 as [|x l Hl IH Hx]; [constructor|].
  cbn [mbind list_bind]. apply StronglySorted_app_2; [|apply Hone|exact IH].
  intros a b Ha (y & Hb & Hy)%list_elem_of_bind.
  rewrite Forall_forall in Hx. eauto.
Qed.

Section Facts.
Variable strip : string → string.

Local Abbreviation chunk_code := (Rag.chunk_code strip).
Local Abbreviation chunk_at := (Rag.chunk_at strip).

Lemma length_lines_pos (code : string) :
  0 < Z.of_nat (length (Extractor.split "010"%char code)).
Proof. rewrite ExtractorMoreFacts.length_split. lia. Qed.

(** The chunk of a window that starts inside the text. *)
Lemma chunk_at_window (code : string) (chunk_size i : Z) :
  0 ≤ i < Z.of_nat (length (Extractor.split "010"%char code)) → 0 < chunk_size →
  chunk_at (Extractor.split "010"%char code) chunk_size i =
  if truthy (strip (join nl (window code chunk_size i))) then
    [Chunk (join nl (window code chunk_size i)) (i + 1)
       (Z.min (i + chunk_size)
          (Z.of_nat (length (Extractor.split "010"%char code))))]
  else [].
Proof.
  intros Hi Hsize. unfold Rag.chunk_at, window. cbv zeta.
  by rewrite slice_forward.
Qed.

(** X14: what the step between chunks decides: when [overlap] equals
    [chunk_size] the call raises the [ValueError] of [range]; when
    [overlap] is greater, it returns no chunk at all, whatever the text;
    when it is smaller, it returns a list. *)
Theorem chunk_code_by_step (code : string) (chunk_size overlap : Z) :
  (overlap = chunk_size →
     chunk_code code chunk_size overlap =
       inl (ValueError "range() arg 3 must not be zero"))
  ∧ (chunk_size < overlap → chunk_code code chunk_size overlap = inr [])
  ∧ (overlap < chunk_size →
       ∃ chunks, chunk_code code chunk_size overlap = inr chunks).
Proof.
  pose proof (length_lines_pos code) as Hlen.
  unfold Rag.chunk_code, range. cbv zeta. split_and!.
  - intros ->. by rewrite Z.sub_diag.
  - intros Hless. rewrite (proj2 (Z.eqb_neq _ 0)) by lia.
    rewrite (proj2 (Z.ltb_ge 0 _)) by lia.
    by rewrite (proj2 (Z.ltb_ge _ 0)) by lia.
  - intros Hmore. rewrite (proj2 (Z.eqb_neq _ 0)) by lia. eauto.
Qed.

(** X15: with [0 ≤ overlap < chunk_size], every chunk is a window of the text:
    it starts [chunk_size - overlap] lines after the one before it, at a
    line from 1 to the number of lines, ends [chunk_size] lines later or at
    the last line, and its text is those lines joined by line breaks and
    does not strip to the empty string.  The chunks are listed by
    increasing start line. *)
Theorem chunks_are_windows (code : string) (chunk_size overlap : Z) :
  0 ≤ overlap < chunk_size →
  ∃ chunks,
    chunk_code code chunk_size overlap = inr chunks
    ∧ (∀ c, c ∈ chunks →
         let total := Z.of_nat (length (Extractor.split "010"%char code)) in
         (∃ k : nat, start_line c = Z.of_nat k * (chunk_size - overlap) + 1)
         ∧ 1 ≤ start_line c ≤ end_line c ∧ end_line c ≤ total
         ∧ end_line c = Z.min (start_line c - 1 + chunk_size) total
         ∧ text c = join nl (window code chunk_size (start_line c - 1))
         ∧ Z.of_nat (length (window code chunk_size (start_line c - 1)))
           = end_line c - start_line c + 1
         ∧ truthy (strip (text c)) = true)
    ∧ StronglySorted (λ a b, start_line a < start_line b) chunks.
Proof.
  intros Hoverlap. pose proof (length_lines_pos code) as Hlen.
  destruct (range_forward (Z.of_nat (length (Extractor.split "010"%char code)))
              (chunk_size - overlap)) as (indices & Hrange & Hin & Hsorted);
    [lia..|].
  unfold Rag.chunk_code. cbv zeta. rewrite Hrange. eexists. split; [done|].
  split.
  - intros c (i & Hc & Hi)%list_elem_of_bind.
    apply Hin in Hi as (k & -> & Hk).
    assert (0 ≤ Z.of_nat k * (chunk_size - overlap)) by nia.
    rewrite chunk_at_window in Hc by lia.
    destruct (truthy _) eqn:Htext; [|by apply elem_of_nil in Hc].
    apply list_elem_of_singleton in Hc as ->. cbn [start_line end_line text].
    replace (Z.of_nat k * (chunk_size - overlap) + 1 - 1)
      with (Z.of_nat k * (chunk_size - overlap)) by lia.
    split; [by exists k|]. split; [lia|]. split; [lia|]. split; [done|].
    split; [done|]. split; [|done].
    unfold window. cbv zeta. rewrite length_take, length_drop. lia.
  - eapply StronglySorted_bind; [| |exact Hsorted].
    + intros i. unfold Rag.chunk_at. cbv zeta.
      destruct (truthy _); repeat constructor.
    + intros i j a b Hij Ha Hb. unfold Rag.chunk_at in Ha, Hb. cbv zeta in Ha, Hb.
      destruct (truthy _); [|by apply elem_of_nil in Ha].
      destruct (truthy _); [|by apply elem_of_nil in Hb].
      apply list_elem_of_singleton in Ha as ->, Hb as ->. simpl. lia.
Qed.

(** X16: with [0 ≤ overlap < chunk_size], no line falls between two windows:
    every line of the text lies in a window, and that window is a chunk of
    the result unless its text strips to the empty string. *)
Theorem every_line_is_in_a_window (code : string) (chunk_size overlap : Z) :
  0 ≤ overlap < chunk_size →
  ∃ chunks,
    chunk_code code chunk_size overlap = inr chunks
    ∧ ∀ line,
        let total := Z.of_nat (length (Extractor.split "010"%char code)) in
        1 ≤ line ≤ total →
        ∃ i, i + 1 ≤ line ≤ Z.min (i + chunk_size) total
             ∧ (truthy (strip (join nl (window code chunk_size i))) = true →
                Chunk (join nl (window code chunk_size i)) (i + 1)
                  (Z.min (i + chunk_size) total) ∈ chunks).
Proof.
  intros Hoverlap. pose proof (length_lines_pos code) as Hlen.
  destruct (range_forward (Z.of_nat (length (Extractor.split "010"%char code)))
              (chunk_size - overlap)) as (indices & Hrange & Hin & _);
    [lia..|].
  unfold Rag.chunk_code. cbv zeta. rewrite Hrange. eexists. split; [done|].
  intros line Hline.
  set (step := chunk_size - overlap) in *.
  set (k := (line - 1) / step).
  assert (Hlow : k * step ≤ line - 1).
  { rewrite Z.mul_comm. apply Z.mul_div_le. lia. }
  assert (Hhigh : line - 1 < (k + 1) * step).
  { pose proof (Z.mul_succ_div_gt (line - 1) step). unfold k. lia. }
  assert (0 ≤ k) by (apply Z.div_pos; lia).
  assert (Hstep : step = chunk_size - overlap) by done.
  clearbody k step.
  assert (0 ≤ k * step) by nia.
  exists (k * step). split; [lia|].
  intros Htext. apply list_elem_of_bind. exists (k * step). split.
  - rewrite chunk_at_window by lia. rewrite Htext. left.
  - apply Hin. exists (Z.to_nat k). rewrite Z2Nat.id by done. split; lia.
Qed.

End Facts.

Lemma chunks_are_windows_witness :
  ∃ chunks,
    Rag.chunk_code (λ s, s)
      ("a" +:+ nl +:+ "b" +:+ nl +:+ "c" +:+ nl +:+ "d" +:+ nl +:+ "e") 3 1
      = inr chunks
    ∧ StronglySorted (λ a b, start_line a < start_line b) chunks.
Proof.
  destruct (chunks_are_windows (λ s, s)
              ("a" +:+ nl +:+ "b" +:+ nl +:+ "c" +:+ nl +:+ "d" +:+ nl +:+ "e") 3 1)
    as (chunks & Hrun & _ & Hsorted); [lia|].
  by exists chunks.
Defined.

Lemma every_line_is_in_a_window_witness :
  ∃ chunks,
    Rag.chunk_code (λ s, s)
      ("a" +:+ nl +:+ "b" +:+ nl +:+ "c" +:+ nl +:+ "d" +:+ nl +:+ "e") 3 1
      = inr chunks
    ∧ ∃ i, i + 1 ≤ 4 ≤ Z.min (i + 3) 5.
Proof.
  destruct (every_line_is_in_a_window (λ s, s)
              ("a" +:+ nl +:+ "b" +:+ nl +:+ "c" +:+ nl +:+ "d" +:+ nl +:+ "e") 3 1)
    as (chunks & Hrun & Hline); [lia|].
  exists chunks. split; [exact Hrun|].
  destruct (Hline 4) as (i & Hi & _); [by vm_compute|]. by exists i.
Defined.

End RagFacts.
